(** * Niramaya Health AI: the Gemini service layer

    A shallow embedding of [src/services/geminiService.ts] and of the
    behaviour its specification states about it: credential validation,
    the post-processing of the report text, and the conversion of raw
    16-bit PCM into a Web Audio buffer. *)

From Stdlib Require Import ZArith NArith QArith Lia.
From Stdlib Require Import Strings.String Strings.Ascii Strings.Byte.
From Equations Require Import Equations.
From stdpp Require Import base option list gmap.

Local Open Scope nat_scope.

(** The way a JavaScript computation ends: with a value, or with a thrown
    exception of type [E]. *)
Inductive Completion (E A : Type) : Type :=
  | Return (a : A)
  | Throw (e : E).
Arguments Return {E A} a.
Arguments Throw {E A} e.

(** ** JavaScript strings

    A JavaScript string is a sequence of UTF-16 code units.  The report
    text may be written in any script, so code units are kept as numbers
    rather than squeezed into 8-bit characters. *)
Module JsString.

Definition char16 : Type := N.
Definition jsstring : Type := list char16.

(** An ASCII literal of the source, as code units. *)
Fixpoint lit (s : string) : jsstring :=
  match s with
  | EmptyString => []
  | String a s' => N_of_ascii a :: lit s'
  end.

(** ECMAScript [WhiteSpace] and [LineTerminator] code points: what
    [String.prototype.trim] strips. *)
Definition isWhiteSpace (c : char16) : bool :=
  ((9 <=? c) && (c <=? 13)            (* TAB LF VT FF CR *)
   || (c =? 32) || (c =? 160)         (* SP, NBSP *)
   || (c =? 0x1680)
   || ((0x2000 <=? c) && (c <=? 0x200A))
   || (c =? 0x2028) || (c =? 0x2029)  (* LS, PS *)
   || (c =? 0x202F) || (c =? 0x205F) || (c =? 0x3000)
   || (c =? 0xFEFF))%N.

Fixpoint trimStart (s : jsstring) : jsstring :=
  match s with
  | c :: s' => if isWhiteSpace c then trimStart s' else s
  | [] => []
  end.

Definition trimEnd (s : jsstring) : jsstring := rev (trimStart (rev s)).

(** [s.trim()] *)
Definition trim (s : jsstring) : jsstring := trimEnd (trimStart s).

(** [s.startsWith(p)] *)
Fixpoint startsWith (s p : jsstring) {struct p} : bool :=
  match p, s with
  | [], _ => true
  | _ :: _, [] => false
  | a :: p', c :: s' => (c =? a)%N && startsWith s' p'
  end.

(** A global regex replace of a literal pattern by the empty string:
    scanning from the left, every match is dropped and the scan resumes
    right after it; a code unit at which no match starts is kept. *)
Equations? removeAll (pat s : jsstring) : jsstring by wf (length s) lt :=
  removeAll pat [] := [];
  removeAll pat (c :: s') with startsWith (c :: s') pat, pat := {
    | true, _ :: p' => removeAll pat (drop (length p') s');
    | _, _ => c :: removeAll pat s' }.
Proof.
  all: try (simpl; lia).
  rewrite length_drop. simpl. lia.
Qed.

(** [needle] occurs somewhere in [s]. *)
Fixpoint includes (s needle : jsstring) : bool :=
  startsWith s needle ||
  match s with
  | [] => false
  | _ :: s' => includes s' needle
  end.

End JsString.
Export JsString.

(** ** Credential validation *)
Module ApiKey.

Record Validation : Type := { valid : bool; error : option jsstring }.

Definition missingKeyMessage : jsstring :=
  lit "API Key is missing. Please check your Vercel Environment Variables.".

Definition vercelKeyMessage : jsstring :=
  lit "Configuration Error: You are using a Vercel AI Key ('vck_...'). This app requires a standard Google Cloud API Key (starting with 'AIza...'). Please update the API_KEY environment variable in Vercel Settings.".

Definition doubleQuote : char16 := 34%N.

(** The key with every double quote deleted (a global regex replace by
    the empty string), then trimmed. *)
Definition cleanKey (apiKey : jsstring) : jsstring :=
  trim (removeAll [doubleQuote] apiKey).

(** A double quote or a blank: what cleaning a key deletes. *)
Definition quoteOrBlank (c : char16) : bool :=
  (c =? doubleQuote)%N || isWhiteSpace c.

(** [validateApiKey], as a function of [process.env.API_KEY]: [None] is an
    undefined variable.  [!apiKey] holds of [undefined] and of the empty
    string. *)
Definition validateApiKey (API_KEY : option jsstring) : Validation :=
  match API_KEY with
  | None | Some [] => {| valid := false; error := Some missingKeyMessage |}
  | Some apiKey =>
      if startsWith (cleanKey apiKey) (lit "vck_")
      then {| valid := false; error := Some vercelKeyMessage |}
      else {| valid := true; error := None |}
  end.

End ApiKey.
Export ApiKey.

(** ** The health report: what happens to the generated text *)
Module Report.

(** A thrown value, as far as the service looks at it: its [message]
    property, [None] when the value has none. *)
Record JsError : Type := { message : option jsstring }.

(** [new Error(msg)] *)
Definition newError (msg : jsstring) : JsError := {| message := Some msg |}.

(** One [console.error] call is the list of its arguments. *)
Inductive LogArg : Type :=
  | LogStr (s : jsstring)
  | LogErr (e : JsError).
Definition Console : Type := list (list LogArg).

(** How the awaited [ai.models.generateContent] call settles: rejected with
    some error, or fulfilled with a response whose [text] may be undefined. *)
Inductive ApiOutcome : Type :=
  | Rejected (e : JsError)
  | Fulfilled (text : option jsstring).

Definition emptyResponseMessage : jsstring :=
  lit "The AI model returned an empty response.".
Definition parseFailureMessage : jsstring :=
  lit "Failed to process the AI report. Please try again.".
Definition connectFailureMessage : jsstring :=
  lit "Failed to connect to Gemini API".

(** The text with every [```json] deleted, then every [```] deleted, then
    trimmed: the argument of [JSON.parse]. *)
Definition cleanText (text : jsstring) : jsstring :=
  trim (removeAll (lit "```") (removeAll (lit "```json") text)).

(** [error.message || fallback] *)
Definition messageOr (error : JsError) (fallback : jsstring) : jsstring :=
  match message error with
  | None | Some [] => fallback
  | Some m => m
  end.

Section WithJson.

(** [JSON.parse] is the platform's: any parser will do.  Its result is cast
    to [HealthReport] unchecked, so a report is whatever value it returns. *)
Variable HealthReport : Type.
Variable JSON_parse : jsstring -> Completion JsError HealthReport.

(** The body of the outer [try], with the lines it writes to the console. *)
Definition reportAttempt (outcome : ApiOutcome)
  : Completion JsError HealthReport * Console :=
  match outcome with
  | Rejected e => (Throw e, [])
  | Fulfilled None | Fulfilled (Some []) =>
      (Throw (newError emptyResponseMessage), [])
  | Fulfilled (Some text) =>
      match JSON_parse (cleanText text) with
      | Return report => (Return report, [])
      | Throw parseError =>
          (Throw (newError parseFailureMessage),
           [[LogStr (lit "JSON Parse Error:"); LogErr parseError;
             LogStr (lit "Received text:"); LogStr text]])
      end
  end.

(** [generateHealthReport], from the point where the awaited call settles:
    the promise it returns is fulfilled with a report or rejected with an
    error, and the console has received some lines. *)
Definition generateHealthReport (outcome : ApiOutcome)
  : Completion JsError HealthReport * Console :=
  match reportAttempt outcome with
  | (Return report, out) => (Return report, out)
  | (Throw error, out) =>
      (Throw (newError (messageOr error connectFailureMessage)),
       out ++ [[LogStr (lit "Report Generation Error:"); LogErr error]])
  end.

End WithJson.

Arguments reportAttempt {HealthReport} JSON_parse outcome.
Arguments generateHealthReport {HealthReport} JSON_parse outcome.

(** A stand-in for [JSON.parse] that knows one document, the empty object. *)
Definition parseEmptyObject (s : jsstring) : Completion JsError unit :=
  if decide (s = lit "{}") then Return tt
  else Throw (newError (lit "Unexpected token in JSON")).

End Report.
Export Report.

(** ** Raw PCM to a Web Audio buffer *)
Module Pcm.

(** *** The store

    Array buffers and the sample storage of audio buffers are objects of a
    shared store; typed arrays are views into it.  Whether the decoder
    writes to its input, and whether its output shares storage with it, is
    a question about this store. *)
Definition loc : Type := positive.

(** A JavaScript number, as far as the decoder produces them: a rational
    (each value it computes is a 16-bit integer over a power of two, which
    binary64 and binary32 hold exactly, see [pcmSample_binary32]), or NaN. *)
Inductive number : Type :=
  | Num (q : Q)
  | NaN.

Inductive object : Type :=
  | ArrayBufferData (bytes : list byte)
  | Float32Data (elems : list number).

Abbreviation heap := (gmap loc object).

Inductive Exception : Type :=
  | RangeError
  | TypeError
  | NotSupportedError
  | IndexSizeError.

(** A heap computation that may throw. *)
Definition Js (A : Type) : Type := heap -> Completion Exception A * heap.

Definition ret {A} (a : A) : Js A := fun h => (Return a, h).
Definition throw {A} (e : Exception) : Js A := fun h => (Throw e, h).
Definition bind {A B} (c : Js A) (k : A -> Js B) : Js B :=
  fun h =>
    match c h with
    | (Return a, h') => k a h'
    | (Throw e, h') => (Throw e, h')
    end.

Notation "'const' x ':=' c ';' k" := (bind c (fun x => k))
  (at level 10, x name, c at level 100, k at level 200,
   format "'[v' 'const'  x  ':='  c ';' '/' k ']'").

(** *** Typed arrays *)
Record Uint8Array : Type :=
  { buffer : loc; byteOffset : nat; byteLength : nat }.

Record Int16Array : Type :=
  { i16_buffer : loc; i16_byteOffset : nat; i16_length : nat }.

(** [new Int16Array(buffer, byteOffset, length)]: ECMAScript rejects an
    offset that is not a multiple of the element size, and a view that
    would run past the end of the buffer. *)
Definition new_Int16Array (buf : loc) (offset len : nat) : Js Int16Array :=
  fun h =>
    match h !! buf with
    | Some (ArrayBufferData bytes) =>
        if negb (offset mod 2 =? 0) then (Throw RangeError, h)
        else if length bytes <? offset + len * 2 then (Throw RangeError, h)
        else (Return {| i16_buffer := buf; i16_byteOffset := offset;
                        i16_length := len |}, h)
    | _ => (Throw TypeError, h)
    end.

Definition byteZ (b : byte) : Z := Z.of_N (Byte.to_N b).

(** The signed 16-bit integer stored low byte first: typed arrays read in
    the byte order of the machine, little-endian wherever this runs. *)
Definition int16_of_bytes (lo hi : byte) : Z :=
  let u := Z.lor (byteZ lo) (Z.shiftl (byteZ hi) 8) in
  if Z.testbit u 15 then u - 65536 else u.

(** The 16-bit element whose two bytes start at byte [pos], if both are
    there. *)
Definition int16At (bytes : list byte) (pos : nat) : option Z :=
  match bytes !! pos, bytes !! (pos + 1) with
  | Some lo, Some hi => Some (int16_of_bytes lo hi)
  | _, _ => None
  end.

(** [a[i]] on an [Int16Array]: [None] is [undefined], past the end. *)
Definition int16_get (h : heap) (a : Int16Array) (i : nat) : option Z :=
  if i <? i16_length a then
    match h !! i16_buffer a with
    | Some (ArrayBufferData bytes) => int16At bytes (i16_byteOffset a + 2 * i)
    | _ => None
    end
  else None.

(** [x / 32768.0] *)
Definition div32768 (x : option Z) : number :=
  match x with
  | Some s => Num (inject_Z s / 32768)%Q
  | None => NaN
  end.

(** [a[i] = v] on a [Float32Array]: a store past the end is ignored. *)
Definition float32_set (a : loc) (i : nat) (v : number) (h : heap) : heap :=
  match h !! a with
  | Some (Float32Data elems) => <[a := Float32Data (<[i := v]> elems)]> h
  | _ => h
  end.

(** *** Web Audio *)

(** What an implementation supports; the Web Audio API asks for at least 32
    channels and the rates 8000 to 96000.  Sample rates are whole numbers
    of frames per second. *)
Record AudioContext : Type :=
  { maxChannels : nat; minSampleRate : Z; maxSampleRate : Z }.

Record AudioBuffer : Type :=
  { numberOfChannels : nat;
    bufferLength : nat;
    sampleRate : Z;
    channelData : list loc }.

Definition supportsRate (ctx : AudioContext) (rate : Z) : bool :=
  ((minSampleRate ctx <=? rate) && (rate <=? maxSampleRate ctx))%Z.

(** Fresh, zeroed storage for [n] channels of [len] frames. *)
Fixpoint allocChannels (n len : nat) (h : heap) : list loc * heap :=
  match n with
  | 0 => ([], h)
  | S n' =>
      let l := fresh (dom h) in
      let '(ls, h') :=
        allocChannels n' len (<[l := Float32Data (replicate len (Num 0))]> h) in
      (l :: ls, h')
  end.

(** [ctx.createBuffer(numberOfChannels, length, sampleRate)]: a
    [NotSupportedError] when an argument is zero or outside its nominal
    range, else a new buffer of silence. *)
Definition createBuffer (ctx : AudioContext) (numChannels len : nat) (rate : Z)
  : Js AudioBuffer :=
  fun h =>
    if (numChannels =? 0) || (maxChannels ctx <? numChannels) || (len =? 0)
       || negb (supportsRate ctx rate)
    then (Throw NotSupportedError, h)
    else
      let '(ls, h') := allocChannels numChannels len h in
      (Return {| numberOfChannels := numChannels; bufferLength := len;
                 sampleRate := rate; channelData := ls |}, h').

(** [buffer.getChannelData(channel)] *)
Definition getChannelData (b : AudioBuffer) (channel : nat) : Js loc :=
  match channelData b !! channel with
  | Some l => ret l
  | None => throw IndexSizeError
  end.

(** *** The decoder *)

(** The [for] loop: [i] runs from 0 to [numSamples - 1]. *)
Definition fillChannel (dataInt16 : Int16Array) (channel : loc)
    (numSamples : nat) : Js unit :=
  fun h =>
    (Return tt,
     foldl (fun h i => float32_set channel i (div32768 (int16_get h dataInt16 i)) h)
           h (seq 0 numSamples)).

Definition defaultSampleRate : Z := 24000.

(** [createAudioBufferFromPCM(data, ctx, sampleRate = 24000)]; an omitted
    rate is [None]. *)
Definition createAudioBufferFromPCM (data : Uint8Array) (ctx : AudioContext)
    (sampleRate : option Z) : Js AudioBuffer :=
  let sampleRate := default defaultSampleRate sampleRate in
  let numSamples := byteLength data / 2 in
  const dataInt16 := new_Int16Array (buffer data) (byteOffset data) numSamples;
  let numChannels := 1 in
  const buffer := createBuffer ctx numChannels numSamples sampleRate;
  const channel := getChannelData buffer 0;
  const _ := fillChannel dataInt16 channel numSamples;
  ret buffer.

(** The bytes a [Uint8Array] shows, when it is a view of an array buffer of
    the store that lies within it. *)
Definition viewBytes (h : heap) (data : Uint8Array) : option (list byte) :=
  match h !! buffer data with
  | Some (ArrayBufferData bytes) =>
      if byteOffset data + byteLength data <=? length bytes
      then Some (take (byteLength data) (drop (byteOffset data) bytes))
      else None
  | _ => None
  end.

(** The samples the spec asks for: the [i]-th is the 16-bit element at
    bytes [2i] and [2i+1] of the input, over 32768. *)
Definition sampleOf (bytes : list byte) (i : nat) : number :=
  div32768 (int16At bytes (2 * i)).

(** The inputs the platform takes: a view aligned to two bytes that holds
    at least one element, a context with a channel to give, and a sample
    rate within its range. *)
Definition accepted (data : Uint8Array) (ctx : AudioContext)
    (sampleRate : option Z) : bool :=
  (byteOffset data mod 2 =? 0) && (2 <=? byteLength data)
  && (1 <=? maxChannels ctx)
  && supportsRate ctx (default defaultSampleRate sampleRate).

(** [new Uint8Array(bytes)] style input: a buffer of its own at offset 0. *)
Definition heapOf (bytes : list byte) : heap := {[ 1%positive := ArrayBufferData bytes ]}.
Definition wholeView (bytes : list byte) : Uint8Array :=
  {| buffer := 1%positive; byteOffset := 0; byteLength := length bytes |}.

(** A view that starts one byte into its buffer, as [bytes.subarray(1)]
    gives. *)
Definition offsetHeap : heap :=
  {[ 1%positive := ArrayBufferData [x2a; x00; x80; xff; x7f] ]}.
Definition offsetView : Uint8Array :=
  {| buffer := 1%positive; byteOffset := 1; byteLength := 4 |}.

(** A context with exactly the limits the Web Audio API requires. *)
Definition baselineContext : AudioContext :=
  {| maxChannels := 32; minSampleRate := 8000; maxSampleRate := 96000 |}.

End Pcm.
Export Pcm.

(** ** The narration: from the response to the bytes of the audio *)
Module Narration.

(** [s.charCodeAt(i)]: [None] is NaN, past the end. *)
Definition charCodeAt (s : jsstring) (i : nat) : option char16 := s !! i.

(** The byte a [Uint8Array] keeps of a stored number: NaN becomes 0, an
    integer wraps modulo 256. *)
Definition toUint8 (v : option char16) : byte :=
  match v with
  | Some c => default x00 (Byte.of_N (c mod 256))
  | None => x00
  end.

(** The byte kept of a code unit. *)
Definition byteOfCode (c : char16) : byte := toUint8 (Some c).

(** [a[i] = v] on a [Uint8Array]: a store past the end is ignored. *)
Definition uint8_set (a : Uint8Array) (i : nat) (v : option char16)
    (h : heap) : heap :=
  if i <? byteLength a then
    match h !! buffer a with
    | Some (ArrayBufferData bytes) =>
        <[buffer a := ArrayBufferData (<[byteOffset a + i := toUint8 v]> bytes)]> h
    | _ => h
    end
  else h.

(** [new Uint8Array(n)]: a view of a new array buffer of [n] zero bytes. *)
Definition new_Uint8Array (n : nat) (h : heap) : Uint8Array * heap :=
  let l := fresh (dom h) in
  ({| buffer := l; byteOffset := 0; byteLength := n |},
   <[l := ArrayBufferData (replicate n x00)]> h).

(** The part of a [generateContent] response the narration looks at; every
    link of the chain may be missing. *)
Record Blob : Type := { data : option jsstring }.
Record Part : Type := { inlineData : option Blob }.
Record Content : Type := { parts : option (list Part) }.
Record Candidate : Type := { content : option Content }.
Record GenerateContentResponse : Type :=
  { candidates : option (list Candidate) }.

(** [response.candidates?.[0]?.content?.parts?.[0]?.inlineData?.data] *)
Definition base64Audio (response : GenerateContentResponse)
  : option jsstring :=
  cs ← candidates response;
  candidate ← cs !! 0;
  c ← content candidate;
  ps ← parts c;
  part ← ps !! 0;
  blob ← inlineData part;
  data blob.

(** How the awaited text-to-speech call settles. *)
Inductive TtsOutcome : Type :=
  | TtsRejected (e : JsError)
  | TtsFulfilled (response : GenerateContentResponse).

Definition noAudioMessage : jsstring :=
  lit "No audio data returned from TTS model".

Section WithAtob.

(** [atob] is the platform's: it returns a binary string or throws. *)
Variable atob : jsstring -> Completion JsError jsstring.

(** [base64ToUint8Array]: the loop copies the code units of the decoded
    string into a new array, one by one. *)
Definition base64ToUint8Array (base64String : jsstring) (h : heap)
  : Completion JsError Uint8Array * heap :=
  match atob base64String with
  | Throw e => (Throw e, h)
  | Return binaryString =>
      let '(bytes, h1) := new_Uint8Array (length binaryString) h in
      (Return bytes,
       foldl (fun h i => uint8_set bytes i (charCodeAt binaryString i) h)
             h1 (seq 0 (length binaryString)))
  end.

(** The body of the [try] of [generateAudioNarration]. *)
Definition narrationAttempt (outcome : TtsOutcome) (h : heap)
  : Completion JsError Uint8Array * heap :=
  match outcome with
  | TtsRejected e => (Throw e, h)
  | TtsFulfilled response =>
      match base64Audio response with
      | Some (c :: s) => base64ToUint8Array (c :: s) h
      | _ => (Throw (newError noAudioMessage), h)
      end
  end.

(** [generateAudioNarration], from the point where the awaited call
    settles: how its promise settles, what the console received, and the
    store afterwards. *)
Definition generateAudioNarration (outcome : TtsOutcome) (h : heap)
  : Completion JsError Uint8Array * Console * heap :=
  match narrationAttempt outcome h with
  | (Return bytes, h') => (Return bytes, [], h')
  | (Throw error, h') =>
      (Throw error, [[LogStr (lit "TTS Error:"); LogErr error]], h')
  end.

End WithAtob.

(** A stand-in for [atob] that knows two payloads: [AACA] (the bytes 00 00
    80) and [AAAAgP9/] (the bytes 00 00 00 80 FF 7F). *)
Definition atobSample (s : jsstring) : Completion JsError jsstring :=
  if decide (s = lit "AACA") then Return [0; 0; 128]%N
  else if decide (s = lit "AAAAgP9/") then Return [0; 0; 0; 128; 255; 127]%N
  else Throw (newError (lit "The string to be decoded is not correctly encoded.")).

(** The samples of a buffer, read back through [getChannelData(0)]. *)
Definition framesOf (h : heap) (b : AudioBuffer) : option (list number) :=
  l ← channelData b !! 0;
  match h !! l with
  | Some (Float32Data xs) => Some xs
  | _ => None
  end.

End Narration.
Export Narration.

(** The code unit of the fences. *)
Definition backtick : char16 := 96%N.

(** ** The build: how the key reaches the client code *)
Module Build.

(** The Vite [define] entry replaces [process.env.API_KEY] in the client
    code by the string literal [JSON.stringify(process.env.API_KEY || '')]
    writes: in the built application the key is always a string, the empty
    one when the variable was not set at build time. *)
Definition definedApiKey (buildEnv : option jsstring) : option jsstring :=
  match buildEnv with
  | Some (c :: s) => Some (c :: s)
  | _ => Some []
  end.

End Build.
Export Build.

(** * Properties *)

(** ** Strings *)
Section StringFacts.

Lemma removeAll_cons pat c s :
  removeAll pat (c :: s) =
    if startsWith (c :: s) pat
    then match pat with
         | [] => c :: removeAll pat s
         | _ :: p' => removeAll pat (drop (length p') s)
         end
    else c :: removeAll pat s.
Proof.
  simp removeAll.
  destruct (startsWith (c :: s) pat); destruct pat; reflexivity.
Qed.

(** Deleting a single code unit everywhere is a filter. *)
Lemma removeAll_single q s :
  removeAll [q] s = List.filter (fun c => negb (c =? q)%N) s.
Proof.
  induction s as [|c s IH]; [reflexivity|].
  rewrite removeAll_cons. simpl.
  destruct (c =? q)%N; simpl; rewrite ?drop_0, IH; reflexivity.
Qed.

Lemma trimStart_blank s :
  forallb isWhiteSpace s = true -> trimStart s = [].
Proof.
  induction s as [|c s IH]; simpl; [reflexivity|].
  intros [Hc Hs]%andb_true_iff. rewrite Hc. auto.
Qed.

Lemma trimStart_app_blank pad s :
  forallb isWhiteSpace pad = true -> trimStart (pad ++ s) = trimStart s.
Proof.
  induction pad as [|c pad IH]; simpl; [reflexivity|].
  intros [Hc Hs]%andb_true_iff. rewrite Hc. auto.
Qed.

Lemma trimStart_app_solid l c m :
  isWhiteSpace c = false -> trimStart (l ++ c :: m) = trimStart l ++ c :: m.
Proof.
  intros Hc. induction l as [|a l IH]; simpl.
  - rewrite Hc. reflexivity.
  - destruct (isWhiteSpace a); [exact IH | reflexivity].
Qed.

(** Trimming the end never eats into a prefix that ends in a solid
    (non-blank) code unit. *)
Lemma trimEnd_app_solid p c r :
  isWhiteSpace c = false -> trimEnd (p ++ c :: r) = p ++ c :: trimEnd r.
Proof.
  intros Hc. unfold trimEnd.
  rewrite rev_app_distr. simpl. rewrite <- app_assoc. simpl.
  rewrite trimStart_app_solid by exact Hc.
  rewrite rev_app_distr. simpl. rewrite rev_involutive, <- app_assoc.
  reflexivity.
Qed.

Lemma startsWith_app p r : startsWith (p ++ r) p = true.
Proof.
  induction p as [|a p IH]; simpl; [reflexivity|].
  rewrite N.eqb_refl. exact IH.
Qed.

Lemma startsWith_split s p :
  startsWith s p = true -> exists r, s = p ++ r.
Proof.
  revert s. induction p as [|a p IH]; intros s; simpl.
  - intros _. exists s. reflexivity.
  - destruct s as [|c s]; [discriminate|].
    intros [Hc Hs]%andb_true_iff. apply N.eqb_eq in Hc. subst c.
    destruct (IH _ Hs) as [r ->]. exists r. reflexivity.
Qed.

End StringFacts.

(** ** Credential validation *)
Section ApiKeyFacts.

Lemma filter_quotes_app a b :
  List.filter (fun c => negb (c =? doubleQuote)%N) (a ++ b) =
  List.filter (fun c => negb (c =? doubleQuote)%N) a ++
  List.filter (fun c => negb (c =? doubleQuote)%N) b.
Proof. apply List.filter_app. Qed.

Lemma filter_quotes_blank pad :
  forallb quoteOrBlank pad = true ->
  forallb isWhiteSpace
    (List.filter (fun c => negb (c =? doubleQuote)%N) pad) = true.
Proof.
  induction pad as [|c pad IH]; simpl; [reflexivity|].
  intros [Hc Hp]%andb_true_iff. unfold quoteOrBlank in Hc.
  destruct (c =? doubleQuote)%N; simpl in *; [auto|].
  rewrite Hc. auto.
Qed.

Lemma cleanKey_blank key :
  forallb quoteOrBlank key = true -> cleanKey key = [].
Proof.
  intros H. unfold cleanKey, trim.
  rewrite removeAll_single, trimStart_blank by (apply filter_quotes_blank, H).
  reflexivity.
Qed.

(** Quotes and blanks in front of a Vercel key come off; the prefix stays. *)
Lemma cleanKey_padded_vck pad rest :
  forallb quoteOrBlank pad = true ->
  startsWith (cleanKey (pad ++ lit "vck_" ++ rest)) (lit "vck_") = true.
Proof.
  intros H. unfold cleanKey, trim.
  rewrite removeAll_single, !filter_quotes_app.
  rewrite trimStart_app_blank by (apply filter_quotes_blank, H).
  generalize (List.filter (fun c => negb (c =? doubleQuote)%N) rest); intros tail.
  change (List.filter _ (lit "vck_")) with ([118; 99; 107] ++ [95])%N.
  rewrite <- app_assoc.
  change (trimStart (([118; 99; 107] ++ [95] ++ tail)%N))
    with ([118; 99; 107] ++ 95 :: tail)%N.
  rewrite trimEnd_app_solid by reflexivity.
  reflexivity.
Qed.

Lemma cleanKey_vck key :
  startsWith key (lit "vck_") = true ->
  startsWith (cleanKey key) (lit "vck_") = true.
Proof.
  intros [rest ->]%startsWith_split.
  apply (cleanKey_padded_vck [] rest). reflexivity.
Qed.

Lemma validateApiKey_nonempty key :
  key <> [] ->
  validateApiKey (Some key) =
    if startsWith (cleanKey key) (lit "vck_")
    then {| valid := false; error := Some vercelKeyMessage |}
    else {| valid := true; error := None |}.
Proof. destruct key; [congruence | reflexivity]. Qed.

End ApiKeyFacts.

(** C6. [validateApiKey] is total and answers with a tagged result, never an
    exception: a missing or empty credential is invalid with the
    missing-key message; a credential carrying the prefix [vck_] (as
    written, or once cleaned) is invalid with the remediation message;
    every other credential is valid, with no message. An invalid answer
    always carries a non-empty message. *)
Theorem validateApiKey_tagged (API_KEY : option jsstring) :
  let r := validateApiKey API_KEY in
  ((valid r = false /\ exists msg, error r = Some msg /\ msg <> [])
   \/ r = {| valid := true; error := None |})
  /\ (API_KEY = None \/ API_KEY = Some [] ->
      r = {| valid := false; error := Some missingKeyMessage |})
  /\ (forall key, API_KEY = Some key -> key <> [] ->
      startsWith key (lit "vck_") = true
      \/ startsWith (cleanKey key) (lit "vck_") = true ->
      r = {| valid := false; error := Some vercelKeyMessage |})
  /\ (forall key, API_KEY = Some key -> key <> [] ->
      startsWith (cleanKey key) (lit "vck_") = false ->
      r = {| valid := true; error := None |}).
Proof.
  cbv zeta. repeat split.
  - destruct API_KEY as [[|c key]|].
    + left. split; [reflexivity|]. eexists. split; [reflexivity|discriminate].
    + rewrite validateApiKey_nonempty by discriminate.
      destruct (startsWith _ _).
      * left. split; [reflexivity|]. eexists. split; [reflexivity|discriminate].
      * right. reflexivity.
    + left. split; [reflexivity|]. eexists. split; [reflexivity|discriminate].
  - intros [-> | ->]; reflexivity.
  - intros key -> Hne Hpre.
    assert (Hc : startsWith (cleanKey key) (lit "vck_") = true)
      by (destruct Hpre as [H|H]; [apply cleanKey_vck, H | exact H]).
    rewrite validateApiKey_nonempty, Hc by assumption. reflexivity.
  - intros key -> Hne Hc.
    rewrite validateApiKey_nonempty, Hc by assumption. reflexivity.
Qed.

Lemma validateApiKey_tagged_witness :
  validateApiKey (Some (lit "vck_live_0123")) =
    {| valid := false; error := Some vercelKeyMessage |}
  /\ validateApiKey (Some (lit "AIzaSy_0123")) =
    {| valid := true; error := None |}
  /\ validateApiKey None =
    {| valid := false; error := Some missingKeyMessage |}.
Proof.
  split; [|split].
  - destruct (validateApiKey_tagged (Some (lit "vck_live_0123")))
      as (_ & _ & H & _).
    apply (H (lit "vck_live_0123")); [reflexivity | discriminate |].
    left. reflexivity.
  - destruct (validateApiKey_tagged (Some (lit "AIzaSy_0123")))
      as (_ & _ & _ & H).
    apply (H (lit "AIzaSy_0123")); [reflexivity | discriminate |].
    vm_compute. reflexivity.
  - destruct (validateApiKey_tagged None) as (_ & H & _).
    apply H. left. reflexivity.
Defined.

(** C10. The prefix check reads the cleaned key: a key is accepted exactly
    when its cleaned form does not start with [vck_], so a Vercel key
    behind any run of double quotes and blanks is still rejected. The
    emptiness check reads the raw credential only: the missing-key answer
    is given for the empty string and no other, and a non-empty credential
    made only of double quotes and blanks cleans to the empty key and is
    accepted. *)
Theorem validateApiKey_cleaned_prefix_raw_emptiness :
  (forall key, key <> [] ->
     valid (validateApiKey (Some key))
     = negb (startsWith (cleanKey key) (lit "vck_")))
  /\ (forall pad rest, forallb quoteOrBlank pad = true ->
     validateApiKey (Some (pad ++ lit "vck_" ++ rest))
     = {| valid := false; error := Some vercelKeyMessage |})
  /\ (forall key,
     error (validateApiKey (Some key)) = Some missingKeyMessage <-> key = [])
  /\ (forall key, key <> [] -> forallb quoteOrBlank key = true ->
     cleanKey key = []
     /\ validateApiKey (Some key) = {| valid := true; error := None |}).
Proof.
  repeat split.
  - intros key Hne. rewrite validateApiKey_nonempty by assumption.
    destruct (startsWith _ _); reflexivity.
  - intros pad rest Hpad.
    pose proof (cleanKey_padded_vck pad rest Hpad) as Hc.
    rewrite validateApiKey_nonempty, Hc; [reflexivity|].
    destruct pad; discriminate.
  - destruct key as [|c key]; [reflexivity|].
    rewrite validateApiKey_nonempty by discriminate.
    destruct (startsWith _ _); discriminate.
  - intros ->. reflexivity.
  - apply cleanKey_blank; assumption.
  - rewrite validateApiKey_nonempty, cleanKey_blank by assumption.
    reflexivity.
Qed.

Lemma validateApiKey_cleaned_prefix_raw_emptiness_witness :
  validateApiKey (Some (doubleQuote :: lit "  vck_abc" ++ [doubleQuote]))
  = {| valid := false; error := Some vercelKeyMessage |}
  /\ validateApiKey (Some (doubleQuote :: lit " " ++ [doubleQuote]))
  = {| valid := true; error := None |}.
Proof.
  destruct validateApiKey_cleaned_prefix_raw_emptiness as (_ & Hpad & _ & Hblank).
  split.
  - apply (Hpad (doubleQuote :: lit "  ") (lit "abc" ++ [doubleQuote])).
    reflexivity.
  - apply (Hblank (doubleQuote :: lit " " ++ [doubleQuote]));
      [discriminate | reflexivity].
Defined.

(** ** The report text *)
Section FenceFacts.

Lemma startsWith_app_l s t p :
  startsWith s p = true -> startsWith (s ++ t) p = true.
Proof.
  intros [r ->]%startsWith_split. rewrite <- app_assoc. apply startsWith_app.
Qed.

Lemma startsWith_shorter s p q :
  startsWith s (p ++ q) = true -> startsWith s p = true.
Proof.
  intros [r ->]%startsWith_split. rewrite <- app_assoc. apply startsWith_app.
Qed.

Lemma includes_cons c s p :
  includes (c :: s) p = startsWith (c :: s) p || includes s p.
Proof. reflexivity. Qed.

Lemma includes_shorter s p q :
  includes s p = false -> includes s (p ++ q) = false.
Proof.
  induction s as [|c s IH]; simpl.
  - rewrite !orb_false_r. intros H.
    destruct (startsWith [] (p ++ q)) eqn:E; [|reflexivity].
    apply startsWith_shorter in E. congruence.
  - intros [H1 H2]%orb_false_iff. rewrite (IH H2), orb_false_r.
    destruct (startsWith (c :: s) (p ++ q)) eqn:E; [|reflexivity].
    apply startsWith_shorter in E. congruence.
Qed.

Lemma includes_app_l l t p :
  includes (l ++ t) p = false -> includes l p = false.
Proof.
  induction l as [|c l IH]; simpl.
  - destruct p; [|reflexivity]. destruct t; simpl; discriminate.
  - intros [H1 H2]%orb_false_iff. rewrite (IH H2), orb_false_r.
    destruct (startsWith (c :: l) p) eqn:E; [|reflexivity].
    apply (startsWith_app_l _ t) in E. simpl in E. congruence.
Qed.

Lemma trimStart_suffix s : exists w, s = w ++ trimStart s.
Proof.
  induction s as [|c s [w IH]]; simpl.
  - exists []. reflexivity.
  - destruct (isWhiteSpace c).
    + exists (c :: w). simpl. congruence.
    + exists []. reflexivity.
Qed.

Lemma trimEnd_prefix s : exists t, s = trimEnd s ++ t.
Proof.
  unfold trimEnd. destruct (trimStart_suffix (rev s)) as [w Hw].
  exists (rev w). rewrite <- rev_app_distr, <- Hw, rev_involutive.
  reflexivity.
Qed.

Lemma includes_trimStart s p :
  includes s p = false -> includes (trimStart s) p = false.
Proof.
  induction s as [|c s IH]; [auto|].
  intros H. simpl trimStart. destruct (isWhiteSpace c); [|exact H].
  rewrite includes_cons in H. apply orb_false_iff in H as [_ H]. auto.
Qed.

Lemma includes_trim s p : includes s p = false -> includes (trim s) p = false.
Proof.
  intros H%includes_trimStart. unfold trim.
  destruct (trimEnd_prefix (trimStart s)) as [t Ht].
  rewrite Ht in H. exact (includes_app_l _ _ _ H).
Qed.

(** After every run of three [b] has been deleted from the left, no three
    [b] in a row are left, and the result starts with one or two [b] only
    if the text did. *)
Lemma removeAll_triple b s :
  includes (removeAll [b; b; b] s) [b; b; b] = false
  /\ (startsWith s [b; b] = false ->
      startsWith (removeAll [b; b; b] s) [b; b] = false)
  /\ (startsWith s [b] = false ->
      startsWith (removeAll [b; b; b] s) [b] = false).
Proof.
  remember (length s) as n eqn:Hn. revert s Hn.
  induction n as [n IH] using lt_wf_ind. intros [|c s] Hn.
  - simp removeAll. repeat split; reflexivity.
  - rewrite removeAll_cons.
    destruct (startsWith (c :: s) [b; b; b]) eqn:E.
    + destruct (startsWith_split _ _ E) as [r Hr].
      injection Hr as -> ->. simpl drop.
      destruct (IH (length r)) with (s := r) as (H & _ & _);
        [subst n; simpl; lia | reflexivity |].
      split; [exact H|].
      simpl. rewrite !N.eqb_refl. split; discriminate.
    + destruct (IH (length s)) with (s := s) as (H1 & H2 & H3);
        [subst n; simpl; lia | reflexivity |].
      simpl in E.
      destruct (c =? b)%N eqn:Ec; simpl in E |- *; rewrite ?Ec; simpl.
      * specialize (H2 E).
        assert (Hr2 : match removeAll [b; b; b] s with
                      | [] => false
                      | c0 :: s' => (c0 =? b)%N &&
                          match s' with
                          | [] => false
                          | c1 :: _ => (c1 =? b)%N && true
                          end
                      end = false) by exact H2.
        rewrite Hr2, H1. repeat split; [|discriminate].
        intros Hs. apply H3. exact Hs.
      * rewrite H1. repeat split; reflexivity.
Qed.



Lemma cleanText_no_fence text :
  includes (cleanText text) (lit "```") = false.
Proof.
  unfold cleanText. apply includes_trim.
  apply (removeAll_triple 96%N).
Qed.


End FenceFacts.

Section ReportFacts.

Context {HealthReport : Type}.
Variable JSON_parse : jsstring -> Completion JsError HealthReport.

(** C7. When the call is fulfilled with an absent or zero-length text, the
    promise of [generateHealthReport] is rejected with the empty-response
    error, its message kept as it is for the caller; nothing is parsed and
    no report is returned. *)
Theorem generateHealthReport_empty_response (text : option jsstring) :
  text = None \/ text = Some [] ->
  generateHealthReport JSON_parse (Fulfilled text) =
    (Throw (newError emptyResponseMessage),
     [[LogStr (lit "Report Generation Error:");
       LogErr (newError emptyResponseMessage)]]).
Proof. intros [-> | ->]; reflexivity. Qed.

(** C8. When the text is there but what is left of it after the fences are
    stripped does not parse, the console receives the parse error together
    with the raw text, and the promise is rejected with the fixed
    try-again message, whatever the parse error was. *)
Theorem generateHealthReport_parse_error (text : jsstring) (parseError : JsError) :
  text <> [] ->
  JSON_parse (cleanText text) = Throw parseError ->
  generateHealthReport JSON_parse (Fulfilled (Some text)) =
    (Throw (newError (lit "Failed to process the AI report. Please try again.")),
     [[LogStr (lit "JSON Parse Error:"); LogErr parseError;
       LogStr (lit "Received text:"); LogStr text];
      [LogStr (lit "Report Generation Error:");
       LogErr (newError parseFailureMessage)]]).
Proof.
  intros Hne Hparse.
  destruct text as [|c text]; [congruence|].
  unfold generateHealthReport, reportAttempt. rewrite Hparse. reflexivity.
Qed.


End ReportFacts.

Lemma generateHealthReport_empty_response_witness :
  generateHealthReport parseEmptyObject (Fulfilled (Some [])) =
    (Throw (newError emptyResponseMessage),
     [[LogStr (lit "Report Generation Error:");
       LogErr (newError emptyResponseMessage)]]).
Proof.
  apply (generateHealthReport_empty_response parseEmptyObject (Some [])).
  right. reflexivity.
Defined.

Lemma generateHealthReport_parse_error_witness :
  fst (generateHealthReport parseEmptyObject
         (Fulfilled (Some (lit "```json {oops ```")))) =
    Throw (newError parseFailureMessage).
Proof.
  pose proof (generateHealthReport_parse_error parseEmptyObject
                (lit "```json {oops ```")
                (newError (lit "Unexpected token in JSON"))) as H.
  rewrite H; [reflexivity | discriminate | vm_compute; reflexivity].
Defined.


(** ** The PCM decoder *)
Section PcmFacts.

Lemma byteZ_range b : (0 <= byteZ b <= 255)%Z.
Proof.
  unfold byteZ. pose proof (Byte.to_N_bounded b). lia.
Qed.

(** The element read low byte first is the two's-complement value of the
    16 bits. *)
Lemma int16_of_bytes_value lo hi :
  int16_of_bytes lo hi =
    (byteZ lo + 256 * byteZ hi - (if 128 <=? byteZ hi then 65536 else 0))%Z.
Proof.
  unfold int16_of_bytes.
  pose proof (byteZ_range lo) as Hlo. pose proof (byteZ_range hi) as Hhi.
  assert (Hland : Z.land (byteZ lo) (Z.shiftl (byteZ hi) 8) = 0%Z).
  { apply Z.bits_inj'. intros n Hn. rewrite Z.land_spec, Z.bits_0.
    destruct (Z.lt_ge_cases n 8) as [Hlt | Hge].
    - rewrite Z.shiftl_spec_low by exact Hlt. apply andb_false_r.
    - rewrite (Z.bits_above_log2 (byteZ lo) n); [reflexivity | lia |].
      destruct (Z.eq_dec (byteZ lo) 0%Z) as [-> | Hnz]; [simpl; lia|].
      apply Z.log2_lt_pow2; [lia|].
      apply Z.lt_le_trans with (2 ^ 8)%Z; [simpl; lia|].
      apply Z.pow_le_mono_r; lia. }
  rewrite <- Z.lxor_lor, <- Z.add_nocarry_lxor by exact Hland.
  rewrite Z.shiftl_mul_pow2 by lia. change (2 ^ 8)%Z with 256%Z.
  set (u := (byteZ lo + byteZ hi * 256)%Z).
  assert (Hbit : Z.testbit u 15 = (128 <=? byteZ hi)%Z).
  { rewrite <- (Z.add_0_l 15), <- Z.div_pow2_bits, Z.bit0_odd by lia.
    change (2 ^ 15)%Z with 32768%Z.
    destruct (128 <=? byteZ hi)%Z eqn:E.
    - apply Z.leb_le in E.
      replace (u / 32768)%Z with 1%Z; [reflexivity|].
      apply Z.div_unique with (u - 32768)%Z; subst u; lia.
    - apply Z.leb_gt in E.
      rewrite Z.div_small; [reflexivity | subst u; lia]. }
  rewrite Hbit. subst u. destruct (128 <=? byteZ hi)%Z; lia.
Qed.

Lemma int16_of_bytes_range lo hi :
  (-32768 <= int16_of_bytes lo hi <= 32767)%Z.
Proof.
  rewrite int16_of_bytes_value.
  pose proof (byteZ_range lo). pose proof (byteZ_range hi).
  destruct (128 <=? byteZ hi)%Z eqn:E;
    [apply Z.leb_le in E | apply Z.leb_gt in E]; lia.
Qed.

(** Such a quotient is the 16-bit integer times 2^-15: a significand of
    at most 16 bits, so the division and the store into a [Float32Array]
    round nothing. *)
Lemma pcmSample_binary32 lo hi :
  let s := int16_of_bytes lo hi in
  (inject_Z s / 32768 == s # (2 ^ 15))%Q /\ (Z.abs s < 2 ^ 24)%Z.
Proof.
  cbv zeta. pose proof (int16_of_bytes_range lo hi). split.
  - unfold Qeq, Qdiv, Qmult, Qinv, inject_Z. simpl. lia.
  - change (2 ^ 24)%Z with 16777216%Z. lia.
Qed.

Lemma pcmSample_range lo hi :
  (-1 <= inject_Z (int16_of_bytes lo hi) / 32768)%Q
  /\ (inject_Z (int16_of_bytes lo hi) / 32768 < 1)%Q.
Proof.
  pose proof (int16_of_bytes_range lo hi).
  unfold Qle, Qlt, Qdiv, Qmult, Qinv, inject_Z. simpl. lia.
Qed.

(** The loop, run on a channel that has just been allocated: after [k] rounds the
    first [k] frames hold the samples and the rest is still silence. The
    input buffer is read from the store at every round. *)
Lemma fillChannel_rounds (h : heap) l buf bytes off n k :
  h !! l = None ->
  h !! buf = Some (ArrayBufferData bytes) ->
  k <= n ->
  foldl (fun h i =>
           float32_set l i
             (div32768
                (int16_get h {| i16_buffer := buf; i16_byteOffset := off;
                                i16_length := n |} i)) h)
        (<[l := Float32Data (replicate n (Num 0))]> h) (seq 0 k)
  = <[l := Float32Data
            (map (fun i => div32768 (int16At bytes (off + 2 * i))) (seq 0 k)
             ++ replicate (n - k) (Num 0))]> h.
Proof.
  intros Hl Hbuf. induction k as [|k IH]; intros Hk.
  - simpl. rewrite Nat.sub_0_r. reflexivity.
  - rewrite seq_S, foldl_app, IH by lia. simpl.
    assert (Hne : l <> buf) by congruence.
    unfold int16_get, float32_set. simpl.
    replace (k <? n) with true by (symmetry; apply Nat.ltb_lt; lia).
    rewrite (lookup_insert_ne _ l buf) by exact Hne.
    rewrite Hbuf, lookup_insert_eq, insert_insert_eq.
    do 2 f_equal.
    rewrite map_app, <- app_assoc. simpl.
    rewrite insert_app_r_alt by (rewrite length_map, length_seq; lia).
    rewrite length_map, length_seq, Nat.sub_diag.
    replace (n - k) with (S (n - S k)) by lia. reflexivity.
Qed.

(** What the decoder does, case by case. *)
Lemma createAudioBufferFromPCM_unfold data ctx rate (h : heap) :
  let n := byteLength data / 2 in
  let r := default defaultSampleRate rate in
  createAudioBufferFromPCM data ctx rate h =
    match h !! buffer data with
    | Some (ArrayBufferData bytes) =>
        if negb (byteOffset data mod 2 =? 0)
           || (length bytes <? byteOffset data + n * 2)
        then (Throw RangeError, h)
        else if (maxChannels ctx <? 1) || (n =? 0) || negb (supportsRate ctx r)
        then (Throw NotSupportedError, h)
        else
          (Return {| numberOfChannels := 1; bufferLength := n;
                     sampleRate := r; channelData := [fresh (dom h)] |},
           <[fresh (dom h) :=
               Float32Data
                 (map (fun i => div32768 (int16At bytes (byteOffset data + 2 * i)))
                      (seq 0 n))]> h)
    | _ => (Throw TypeError, h)
    end.
Proof.
  cbv zeta. unfold createAudioBufferFromPCM, bind, new_Int16Array.
  generalize (byteLength data / 2) (default defaultSampleRate rate).
  intros n r.
  destruct (h !! buffer data) as [[bytes|elems]|] eqn:Hbuf; try reflexivity.
  destruct (negb (byteOffset data mod 2 =? 0)); [reflexivity|].
  destruct (length bytes <? byteOffset data + n * 2); [reflexivity|].
  unfold createBuffer. cbn [orb Nat.eqb].
  destruct (maxChannels ctx <? 1); [reflexivity|].
  destruct (n =? 0); [reflexivity|].
  destruct (supportsRate ctx r); [|reflexivity].
  cbn [orb negb allocChannels]. unfold getChannelData.
  cbn [channelData lookup list_lookup]. unfold ret, fillChannel. f_equal.
  assert (Hfresh : h !! fresh (dom h) = None)
    by (apply not_elem_of_dom, is_fresh).
  rewrite (fillChannel_rounds h _ _ bytes) by (assumption || lia).
  rewrite Nat.sub_diag. cbn [replicate]. rewrite app_nil_r. reflexivity.
Qed.

Lemma viewBytes_Some h data bs :
  viewBytes h data = Some bs ->
  exists bytes,
    h !! buffer data = Some (ArrayBufferData bytes)
    /\ byteOffset data + byteLength data <= length bytes
    /\ bs = take (byteLength data) (drop (byteOffset data) bytes)
    /\ length bs = byteLength data.
Proof.
  unfold viewBytes.
  destruct (h !! buffer data) as [[bytes|elems]|]; try discriminate.
  destruct (byteOffset data + byteLength data <=? length bytes) eqn:E;
    [|discriminate].
  apply Nat.leb_le in E. intros [= <-]. exists bytes.
  repeat split; try assumption.
  rewrite length_take, length_drop. lia.
Qed.

(** Inside the view, the element at offset + 2i of the buffer is the one at
    bytes 2i and 2i+1 of the input. *)
Lemma int16At_view bytes off len i :
  2 * i + 1 < len ->
  int16At bytes (off + 2 * i) = int16At (take len (drop off bytes)) (2 * i).
Proof.
  intros Hi. unfold int16At.
  rewrite !lookup_take_lt, !lookup_drop by lia.
  replace (off + 2 * i + 1) with (off + (2 * i + 1)) by lia. reflexivity.
Qed.

Lemma int16At_Some bs i :
  2 * i + 1 < length bs ->
  exists lo hi,
    bs !! (2 * i) = Some lo /\ bs !! (2 * i + 1) = Some hi
    /\ int16At bs (2 * i) = Some (int16_of_bytes lo hi).
Proof.
  intros Hi. unfold int16At.
  destruct (lookup_lt_is_Some_2 bs (2 * i)) as [lo Hlo]; [lia|].
  destruct (lookup_lt_is_Some_2 bs (2 * i + 1)) as [hi Hhi]; [lia|].
  exists lo, hi. rewrite Hlo, Hhi. auto.
Qed.

(** The decoder on a well-formed view of [bs]: it returns exactly on the
    accepted inputs, and then the buffer is new, of [length bs / 2] frames
    at the asked rate, and holds the samples of [bs]. *)
Lemma createAudioBufferFromPCM_view data ctx rate (h : heap) bs :
  viewBytes h data = Some bs ->
  createAudioBufferFromPCM data ctx rate h =
    if accepted data ctx rate
    then (Return {| numberOfChannels := 1; bufferLength := length bs / 2;
                    sampleRate := default defaultSampleRate rate;
                    channelData := [fresh (dom h)] |},
          <[fresh (dom h) :=
              Float32Data (map (sampleOf bs) (seq 0 (length bs / 2)))]> h)
    else (Throw (if byteOffset data mod 2 =? 0
                 then NotSupportedError else RangeError), h).
Proof.
  intros (bytes & Hbuf & Hfit & -> & Hlen)%viewBytes_Some.
  rewrite createAudioBufferFromPCM_unfold, Hbuf. cbv zeta.
  rewrite Hlen. unfold accepted.
  pose proof (Nat.div_mod_eq (byteLength data) 2) as Hdiv.
  pose proof (Nat.mod_upper_bound (byteLength data) 2) as Hmod.
  set (n := byteLength data / 2) in *.
  assert (Hfits : (length bytes <? byteOffset data + n * 2) = false)
    by (apply Nat.ltb_ge; lia).
  assert (Hn0 : (n =? 0) = negb (2 <=? byteLength data)).
  { destruct (Nat.leb_spec 2 (byteLength data));
      [apply Nat.eqb_neq | apply Nat.eqb_eq]; lia. }
  assert (Hch : (maxChannels ctx <? 1) = negb (1 <=? maxChannels ctx)).
  { destruct (Nat.leb_spec 1 (maxChannels ctx));
      [apply Nat.ltb_ge | apply Nat.ltb_lt]; lia. }
  rewrite Hfits, Hn0, Hch, orb_false_r.
  destruct (byteOffset data mod 2 =? 0); cbn [negb andb]; [|reflexivity].
  destruct (2 <=? byteLength data), (1 <=? maxChannels ctx),
    (supportsRate ctx (default defaultSampleRate rate));
    cbn [negb andb orb]; try reflexivity.
  do 3 f_equal. apply map_ext_in. intros i Hi%in_seq.
  unfold sampleOf. rewrite <- int16At_view by lia. reflexivity.
Qed.

End PcmFacts.

Section DecoderTheorems.

Lemma accepted_true data ctx rate :
  byteOffset data mod 2 = 0 ->
  2 <= byteLength data ->
  1 <= maxChannels ctx ->
  supportsRate ctx (default defaultSampleRate rate) = true ->
  accepted data ctx rate = true.
Proof.
  intros Ha Hl Hc Hr. unfold accepted. rewrite Hr.
  rewrite (proj2 (Nat.eqb_eq _ _) Ha).
  rewrite (proj2 (Nat.leb_le _ _) Hl), (proj2 (Nat.leb_le _ _) Hc).
  reflexivity.
Qed.

(** Whatever comes back as a buffer is the buffer of the samples. *)
Lemma createAudioBufferFromPCM_returned data ctx rate (h : heap) bs b h' :
  viewBytes h data = Some bs ->
  createAudioBufferFromPCM data ctx rate h = (Return b, h') ->
  b = {| numberOfChannels := 1; bufferLength := length bs / 2;
         sampleRate := default defaultSampleRate rate;
         channelData := [fresh (dom h)] |}
  /\ h' = <[fresh (dom h) :=
             Float32Data (map (sampleOf bs) (seq 0 (length bs / 2)))]> h.
Proof.
  intros Hview Hrun.
  rewrite (createAudioBufferFromPCM_view _ _ _ _ _ Hview) in Hrun.
  destruct (accepted data ctx rate); [|discriminate].
  injection Hrun as <- <-. split; reflexivity.
Qed.

(** A view that is not aligned to two bytes is refused by the
    [Int16Array] constructor, whatever its bytes. *)
Lemma createAudioBufferFromPCM_unaligned data ctx rate (h : heap) bs :
  viewBytes h data = Some bs ->
  byteOffset data mod 2 <> 0 ->
  createAudioBufferFromPCM data ctx rate h = (Throw RangeError, h).
Proof.
  intros Hview Hodd.
  rewrite (createAudioBufferFromPCM_view _ _ _ _ _ Hview). unfold accepted.
  rewrite (proj2 (Nat.eqb_neq _ _) Hodd). reflexivity.
Qed.

(** C1 (as the code has it). Whenever the decoder produces a buffer, that
    buffer has floor(byte length / 2) frames, and so has its channel: n for
    2n bytes, n for 2n+1 bytes, the odd byte dropped. It produces one for
    every view aligned to two bytes that holds at least two bytes, at a
    rate the context supports. *)
Theorem createAudioBufferFromPCM_sample_count
    data ctx rate (h : heap) (bs : list byte) :
  viewBytes h data = Some bs ->
  (forall b h',
     createAudioBufferFromPCM data ctx rate h = (Return b, h') ->
     bufferLength b = length bs / 2
     /\ (forall n, length bs = 2 * n \/ length bs = 2 * n + 1 ->
         bufferLength b = n)
     /\ exists l xs,
         channelData b = [l] /\ h' !! l = Some (Float32Data xs)
         /\ length xs = length bs / 2)
  /\ (byteOffset data mod 2 = 0 ->
      2 <= length bs ->
      1 <= maxChannels ctx ->
      supportsRate ctx (default defaultSampleRate rate) = true ->
      exists b h', createAudioBufferFromPCM data ctx rate h = (Return b, h')).
Proof.
  intros Hview. split.
  - intros b h' Hrun.
    destruct (createAudioBufferFromPCM_returned _ _ _ _ _ _ _ Hview Hrun)
      as [-> ->].
    cbn [bufferLength channelData]. split; [reflexivity|]. split.
    + intros n [Hn | Hn]; rewrite Hn.
      * rewrite Nat.mul_comm. apply Nat.div_mul. lia.
      * rewrite Nat.mul_comm, Nat.div_add_l by lia. apply Nat.add_0_r.
    + eexists _, _. split; [reflexivity|]. split; [apply lookup_insert_eq|].
      rewrite length_map, length_seq. reflexivity.
  - intros Ha Hl Hc Hr.
    rewrite (createAudioBufferFromPCM_view _ _ _ _ _ Hview).
    destruct (viewBytes_Some _ _ _ Hview) as (_ & _ & _ & _ & Hlen).
    rewrite accepted_true by (assumption || lia). eauto.
Qed.

Lemma createAudioBufferFromPCM_sample_count_witness :
  exists b h',
    createAudioBufferFromPCM (wholeView [x01; x02; x03; x04; x05])
      baselineContext None (heapOf [x01; x02; x03; x04; x05]) = (Return b, h')
    /\ bufferLength b = 2.
Proof.
  destruct (createAudioBufferFromPCM_sample_count
              (wholeView [x01; x02; x03; x04; x05]) baselineContext None
              (heapOf [x01; x02; x03; x04; x05]) [x01; x02; x03; x04; x05])
    as [Hcount Hruns]; [reflexivity|].
  destruct Hruns as (b & h' & Hrun);
    [reflexivity | simpl; lia | simpl; lia | reflexivity |].
  exists b, h'. split; [exact Hrun|].
  destruct (Hcount b h' Hrun) as (_ & Hn & _).
  apply (Hn 2). right. reflexivity.
Defined.

(** The empty input does not give a zero-length buffer: [createBuffer]
    refuses a length of zero. *)
Lemma createAudioBufferFromPCM_empty_input_no_buffer :
  viewBytes (heapOf []) (wholeView []) = Some []
  /\ ~ exists b h',
        createAudioBufferFromPCM (wholeView []) baselineContext None (heapOf [])
        = (Return b, h')
        /\ bufferLength b = 0.
Proof.
  split; [reflexivity|].
  intros (b & h' & Hrun & _).
  rewrite (createAudioBufferFromPCM_view
             (wholeView []) baselineContext None (heapOf []) [] eq_refl)
    in Hrun.
  discriminate Hrun.
Qed.

(** C2. For every sample index below floor(byte length / 2), bytes 2i and
    2i+1 of the input are there; read low byte first as a two's-complement
    16-bit integer s they give the i-th frame s / 32768 of whatever buffer
    is returned, a value in [-1, 1); and a buffer is returned for every
    aligned view at a supported rate. In particular 0 gives 0, the bytes
    00 80 give -32768 and -1, the bytes FF 7F give 32767 and 32767/32768. *)
Theorem createAudioBufferFromPCM_samples
    data ctx rate (h : heap) (bs : list byte) (i : nat) :
  viewBytes h data = Some bs ->
  i < length bs / 2 ->
  (exists lo hi,
     bs !! (2 * i) = Some lo /\ bs !! (2 * i + 1) = Some hi
     /\ int16_of_bytes lo hi =
          (byteZ lo + 256 * byteZ hi
           - (if 128 <=? byteZ hi then 65536 else 0))%Z
     /\ (-32768 <= int16_of_bytes lo hi <= 32767)%Z
     /\ (-1 <= inject_Z (int16_of_bytes lo hi) / 32768)%Q
     /\ (inject_Z (int16_of_bytes lo hi) / 32768 < 1)%Q
     /\ (forall b h',
           createAudioBufferFromPCM data ctx rate h = (Return b, h') ->
           exists l xs,
             channelData b = [l] /\ h' !! l = Some (Float32Data xs)
             /\ xs !! i = Some (Num (inject_Z (int16_of_bytes lo hi) / 32768))))
  /\ (byteOffset data mod 2 = 0 ->
      1 <= maxChannels ctx ->
      supportsRate ctx (default defaultSampleRate rate) = true ->
      exists b h', createAudioBufferFromPCM data ctx rate h = (Return b, h'))
  /\ (int16_of_bytes x00 x00 = 0%Z /\ (inject_Z 0 / 32768 == 0)%Q)
  /\ (int16_of_bytes x00 x80 = (-32768)%Z /\ (inject_Z (-32768) / 32768 == -1)%Q)
  /\ (int16_of_bytes xff x7f = 32767%Z
      /\ (inject_Z 32767 / 32768 == 32767 # 32768)%Q).
Proof.
  intros Hview Hi.
  pose proof (Nat.div_mod_eq (length bs) 2) as Hdiv.
  pose proof (Nat.mod_upper_bound (length bs) 2) as Hmod.
  repeat apply conj; try reflexivity.
  - destruct (int16At_Some bs i) as (lo & hi & Hlo & Hhi & Hat); [lia|].
    exists lo, hi. repeat apply conj; try assumption.
    + apply int16_of_bytes_value.
    + apply int16_of_bytes_range.
    + apply int16_of_bytes_range.
    + apply pcmSample_range.
    + apply pcmSample_range.
    + intros b h' Hrun.
      destruct (createAudioBufferFromPCM_returned _ _ _ _ _ _ _ Hview Hrun)
        as [-> ->].
      eexists _, _. split; [reflexivity|]. split; [apply lookup_insert_eq|].
      apply list_lookup_fmap_Some. exists i. split.
      * unfold sampleOf. rewrite Hat. reflexivity.
      * apply lookup_seq. lia.
  - intros Ha Hc Hr.
    rewrite (createAudioBufferFromPCM_view _ _ _ _ _ Hview).
    destruct (viewBytes_Some _ _ _ Hview) as (_ & _ & _ & _ & Hlen).
    rewrite accepted_true by (assumption || lia). eauto.
Qed.

Lemma createAudioBufferFromPCM_samples_witness :
  exists b h' l xs,
    createAudioBufferFromPCM (wholeView [x00; x00; x00; x80; xff; x7f])
      baselineContext None (heapOf [x00; x00; x00; x80; xff; x7f])
    = (Return b, h')
    /\ channelData b = [l] /\ h' !! l = Some (Float32Data xs)
    /\ xs !! 1 = Some (Num (inject_Z (int16_of_bytes x00 x80) / 32768)).
Proof.
  destruct (createAudioBufferFromPCM_samples
              (wholeView [x00; x00; x00; x80; xff; x7f]) baselineContext None
              (heapOf [x00; x00; x00; x80; xff; x7f])
              [x00; x00; x00; x80; xff; x7f] 1)
    as ((lo & hi & Hlo & Hhi & _ & _ & _ & _ & Hsample) & Hruns & _);
    [reflexivity | simpl; lia |].
  injection Hlo as <-. injection Hhi as <-.
  destruct Hruns as (b & h' & Hrun); [reflexivity | simpl; lia | reflexivity |].
  destruct (Hsample b h' Hrun) as (l & xs & Hch & Hl & Hx).
  exists b, h', l, xs. auto.
Defined.

(** C3 (the code at two inputs it refuses). A four-byte view that starts
    one byte into its buffer makes the [Int16Array] constructor throw a
    RangeError; the empty input makes [createBuffer] throw a
    NotSupportedError. Neither returns a buffer. *)
Theorem createAudioBufferFromPCM_throws :
  viewBytes offsetHeap offsetView = Some [x00; x80; xff; x7f]
  /\ createAudioBufferFromPCM offsetView baselineContext None offsetHeap
     = (Throw RangeError, offsetHeap)
  /\ viewBytes (heapOf []) (wholeView []) = Some []
  /\ createAudioBufferFromPCM (wholeView []) baselineContext None (heapOf [])
     = (Throw NotSupportedError, heapOf []).
Proof.
  split; [reflexivity|]. split.
  - apply (createAudioBufferFromPCM_unaligned _ _ _ _ [x00; x80; xff; x7f]);
      [reflexivity | discriminate].
  - split; [reflexivity|].
    exact (createAudioBufferFromPCM_view
             (wholeView []) baselineContext None (heapOf []) [] eq_refl).
Qed.

(** C4 (as the code has it). Running the decoder leaves every object of
    the store as it was, the array buffer under the input among them, so
    the input shows the same bytes afterwards. A buffer that is returned
    has exactly one channel, and that channel is storage of its own: it was
    not in the store before, it is not the input's array buffer, and it
    holds as many frames as the buffer says. A buffer is returned for every
    view aligned to two bytes that holds at least two bytes, when the
    context has a channel to give and supports the rate. *)
Theorem createAudioBufferFromPCM_frame data ctx rate (h : heap) :
  let res := createAudioBufferFromPCM data ctx rate h in
  (forall l o, h !! l = Some o -> res.2 !! l = Some o)
  /\ viewBytes res.2 data = viewBytes h data
  /\ (forall b, res.1 = Return b ->
      exists l xs,
        channelData b = [l] /\ numberOfChannels b = 1
        /\ h !! l = None /\ l <> buffer data
        /\ res.2 !! l = Some (Float32Data xs)
        /\ length xs = bufferLength b)
  /\ (forall bs,
        viewBytes h data = Some bs ->
        byteOffset data mod 2 = 0 ->
        2 <= length bs ->
        1 <= maxChannels ctx ->
        supportsRate ctx (default defaultSampleRate rate) = true ->
        exists b, res.1 = Return b).
Proof.
  cbv zeta.
  assert (Hfresh : h !! fresh (dom h) = None)
    by (apply not_elem_of_dom, is_fresh).
  assert (Hkeep : forall l o, h !! l = Some o ->
            (createAudioBufferFromPCM data ctx rate h).2 !! l = Some o).
  { intros l o Hl. rewrite createAudioBufferFromPCM_unfold. cbv zeta.
    destruct (h !! buffer data) as [[bytes|elems]|]; try exact Hl.
    repeat (destruct (_ || _); [exact Hl|]).
    cbn [snd]. rewrite lookup_insert_ne by congruence. exact Hl. }
  split; [exact Hkeep|]. split; [|split].
  - unfold viewBytes.
    destruct (h !! buffer data) as [o|] eqn:Hbuf.
    + rewrite (Hkeep _ _ Hbuf). reflexivity.
    + rewrite createAudioBufferFromPCM_unfold, Hbuf. cbn [snd].
      rewrite Hbuf. reflexivity.
  - intros b Hret.
    rewrite createAudioBufferFromPCM_unfold in Hret |- *. cbv zeta in *.
    destruct (h !! buffer data) as [[bytes|elems]|] eqn:Hbuf;
      try discriminate Hret.
    destruct (negb (byteOffset data mod 2 =? 0)
              || (length bytes <? byteOffset data + byteLength data / 2 * 2));
      [discriminate Hret|].
    destruct ((maxChannels ctx <? 1) || (byteLength data / 2 =? 0)
              || negb (supportsRate ctx (default defaultSampleRate rate)));
      [discriminate Hret|].
    cbn [fst snd] in *. injection Hret as <-.
    eexists _, _. cbn [channelData numberOfChannels bufferLength].
    split; [reflexivity|]. split; [reflexivity|].
    split; [exact Hfresh|]. split; [congruence|].
    split; [apply lookup_insert_eq|].
    rewrite length_map, length_seq. reflexivity.
  - intros bs Hview Ha Hl Hc Hr.
    rewrite (createAudioBufferFromPCM_view _ _ _ _ _ Hview).
    destruct (viewBytes_Some _ _ _ Hview) as (_ & _ & _ & _ & Hlen).
    rewrite accepted_true by (assumption || lia). eauto.
Qed.

Lemma createAudioBufferFromPCM_frame_witness :
  let res := createAudioBufferFromPCM (wholeView [x00; x80]) baselineContext
               None (heapOf [x00; x80]) in
  res.2 !! 1%positive = Some (ArrayBufferData [x00; x80])
  /\ exists b l xs,
       res.1 = Return b /\ channelData b = [l]
       /\ heapOf [x00; x80] !! l = None
       /\ res.2 !! l = Some (Float32Data xs).
Proof.
  cbv zeta.
  destruct (createAudioBufferFromPCM_frame (wholeView [x00; x80])
              baselineContext None (heapOf [x00; x80]))
    as (Hkeep & _ & Hnew & Hruns).
  split; [apply Hkeep; reflexivity|].
  destruct (Hruns [x00; x80]) as [b Hb];
    [reflexivity | reflexivity | simpl; lia | simpl; lia | reflexivity |].
  destruct (Hnew b Hb) as (l & xs & Hch & _ & Hfresh & _ & Hl & _).
  exists b, l, xs. auto.
Defined.

(** The empty input gets no output buffer at all, newly allocated or
    otherwise: the decoder throws. *)
Lemma createAudioBufferFromPCM_empty_input_returns_nothing :
  viewBytes (heapOf []) (wholeView []) = Some []
  /\ ~ exists b,
        (createAudioBufferFromPCM (wholeView []) baselineContext None
           (heapOf [])).1 = Return b.
Proof.
  split; [reflexivity|].
  intros (b & Hrun).
  rewrite (createAudioBufferFromPCM_view
             (wholeView []) baselineContext None (heapOf []) [] eq_refl)
    in Hrun.
  discriminate Hrun.
Qed.

(** C5 (as the code has it). Leaving the rate out is passing 24000. The
    buffer the decoder returns has the rate 24000 when none was given and
    the given rate otherwise; it returns one for every view aligned to two
    bytes that holds at least two bytes, when the context supports the
    rate. *)
Theorem createAudioBufferFromPCM_sample_rate
    data ctx (h : heap) (bs : list byte) :
  viewBytes h data = Some bs ->
  createAudioBufferFromPCM data ctx None h
  = createAudioBufferFromPCM data ctx (Some 24000%Z) h
  /\ (forall b h',
        createAudioBufferFromPCM data ctx None h = (Return b, h') ->
        sampleRate b = 24000%Z)
  /\ (forall r b h',
        createAudioBufferFromPCM data ctx (Some r) h = (Return b, h') ->
        sampleRate b = r)
  /\ (forall rate,
        byteOffset data mod 2 = 0 ->
        2 <= length bs ->
        1 <= maxChannels ctx ->
        supportsRate ctx (default 24000%Z rate) = true ->
        exists b h',
          createAudioBufferFromPCM data ctx rate h = (Return b, h')
          /\ sampleRate b = default 24000%Z rate).
Proof.
  intros Hview. split; [reflexivity|]. split; [|split].
  - intros b h' Hrun.
    destruct (createAudioBufferFromPCM_returned _ _ _ _ _ _ _ Hview Hrun)
      as [-> _]. reflexivity.
  - intros r b h' Hrun.
    destruct (createAudioBufferFromPCM_returned _ _ _ _ _ _ _ Hview Hrun)
      as [-> _]. reflexivity.
  - intros rate Ha Hl Hc Hr.
    rewrite (createAudioBufferFromPCM_view _ _ _ _ _ Hview).
    destruct (viewBytes_Some _ _ _ Hview) as (_ & _ & _ & _ & Hlen).
    rewrite accepted_true by (assumption || lia).
    eexists _, _. split; reflexivity.
Qed.

Lemma createAudioBufferFromPCM_sample_rate_witness :
  exists b h',
    createAudioBufferFromPCM (wholeView [x01; x02]) baselineContext
      (Some 44100%Z) (heapOf [x01; x02]) = (Return b, h')
    /\ sampleRate b = 44100%Z.
Proof.
  destruct (createAudioBufferFromPCM_sample_rate (wholeView [x01; x02])
              baselineContext (heapOf [x01; x02]) [x01; x02])
    as (_ & _ & _ & Hruns); [reflexivity|].
  apply (Hruns (Some 44100%Z)); [reflexivity | simpl; lia | simpl; lia |].
  reflexivity.
Defined.

(** A rate outside the context's range gives no buffer at that rate, and
    the empty input gives no buffer at the default rate. *)
Lemma createAudioBufferFromPCM_rate_refused :
  viewBytes (heapOf [x00; x00]) (wholeView [x00; x00]) = Some [x00; x00]
  /\ ~ (exists b h',
        createAudioBufferFromPCM (wholeView [x00; x00]) baselineContext
          (Some 1%Z) (heapOf [x00; x00]) = (Return b, h')
        /\ sampleRate b = 1%Z)
  /\ ~ (exists b h',
        createAudioBufferFromPCM (wholeView []) baselineContext None
          (heapOf []) = (Return b, h')
        /\ sampleRate b = 24000%Z).
Proof.
  split; [reflexivity|]. split.
  - intros (b & h' & Hrun & _).
    rewrite (createAudioBufferFromPCM_view
               (wholeView [x00; x00]) baselineContext (Some 1%Z)
               (heapOf [x00; x00]) [x00; x00] eq_refl) in Hrun.
    discriminate Hrun.
  - intros (b & h' & Hrun & _).
    rewrite (createAudioBufferFromPCM_view
               (wholeView []) baselineContext None (heapOf []) [] eq_refl)
      in Hrun.
    discriminate Hrun.
Qed.

End DecoderTheorems.

(** * Further properties of the service *)

(** ** Trimming and deleting *)
Section TrimFacts.

Lemma forallb_rev_blank (P : char16 -> bool) s :
  forallb P s = true -> forallb P (rev s) = true.
Proof.
  intros H. apply forallb_forall. intros c Hc%in_rev.
  revert c Hc. apply forallb_forall. exact H.
Qed.

Lemma trimEnd_blank s : forallb isWhiteSpace s = true -> trimEnd s = [].
Proof.
  intros H. unfold trimEnd.
  rewrite trimStart_blank by (apply forallb_rev_blank, H). reflexivity.
Qed.

Lemma trimEnd_app_blank s pad :
  forallb isWhiteSpace pad = true -> trimEnd (s ++ pad) = trimEnd s.
Proof.
  intros H. unfold trimEnd. rewrite rev_app_distr.
  rewrite trimStart_app_blank by (apply forallb_rev_blank, H). reflexivity.
Qed.

(** A string is blank throughout, or has a first solid code unit. *)
Lemma first_solid s :
  forallb isWhiteSpace s = true
  \/ exists ws c m,
       s = ws ++ c :: m /\ forallb isWhiteSpace ws = true
       /\ isWhiteSpace c = false.
Proof.
  induction s as [|a s IH]; [left; reflexivity|].
  destruct (isWhiteSpace a) eqn:Ha.
  - destruct IH as [IH | (ws & c & m & -> & Hws & Hc)].
    + left. simpl. rewrite Ha. exact IH.
    + right. exists (a :: ws), c, m. simpl. rewrite Ha. auto.
  - right. exists [], a, s. auto.
Qed.

(** Trimming the two ends in either order gives the same string. *)
Lemma trim_either_order s : trimStart (trimEnd s) = trim s.
Proof.
  unfold trim.
  destruct (first_solid s) as [Hs | (ws & c & m & -> & Hws & Hc)].
  - rewrite (trimEnd_blank s Hs), (trimStart_blank s Hs). reflexivity.
  - rewrite trimEnd_app_solid, !trimStart_app_blank by assumption.
    simpl. rewrite Hc.
    symmetry. exact (trimEnd_app_solid [] c m Hc).
Qed.

Lemma trimStart_idem s : trimStart (trimStart s) = trimStart s.
Proof.
  induction s as [|a s IH]; [reflexivity|].
  simpl. destruct (isWhiteSpace a) eqn:Ha; [exact IH|].
  simpl. rewrite Ha. reflexivity.
Qed.

Lemma trimEnd_idem s : trimEnd (trimEnd s) = trimEnd s.
Proof.
  unfold trimEnd. rewrite rev_involutive, trimStart_idem. reflexivity.
Qed.

Lemma trim_idem s : trim (trim s) = trim s.
Proof.
  unfold trim at 1. rewrite <- (trim_either_order s) at 1.
  rewrite trimStart_idem, trim_either_order.
  unfold trim. apply trimEnd_idem.
Qed.

(** Blanks around a string do not survive trimming. *)
Lemma trim_padded pad s pad' :
  forallb isWhiteSpace pad = true ->
  forallb isWhiteSpace pad' = true ->
  trim (pad ++ s ++ pad') = trim s.
Proof.
  intros Hp Hp'. unfold trim at 1.
  rewrite trimStart_app_blank by exact Hp.
  change (trimEnd (trimStart (s ++ pad'))) with (trim (s ++ pad')).
  rewrite <- !trim_either_order, trimEnd_app_blank by exact Hp'.
  reflexivity.
Qed.

(** Where the first code unit of the pattern does not occur, nothing is
    deleted. *)
Lemma removeAll_keep a p body rest :
  forallb (fun c => negb (c =? a)%N) body = true ->
  removeAll (a :: p) (body ++ rest) = body ++ removeAll (a :: p) rest.
Proof.
  induction body as [|c body IH]; [reflexivity|].
  simpl. intros [Hc Hb]%andb_true_iff.
  rewrite removeAll_cons. simpl.
  apply negb_true_iff in Hc. rewrite Hc. simpl. rewrite IH by exact Hb.
  reflexivity.
Qed.

(** A text in which the pattern does not occur is left as it is. *)
Lemma removeAll_id pat s : includes s pat = false -> removeAll pat s = s.
Proof.
  induction s as [|c s IH]; [intros _; simp removeAll; reflexivity|].
  rewrite includes_cons. intros [H1 H2]%orb_false_iff.
  rewrite removeAll_cons, H1, IH by exact H2. reflexivity.
Qed.

End TrimFacts.

(** ** Credentials, once more *)
Section ApiKeyExtras.

Lemma cleanKey_filter key :
  cleanKey key = trim (List.filter (fun c => negb (c =? doubleQuote)%N) key).
Proof. unfold cleanKey. rewrite removeAll_single. reflexivity. Qed.

(** X1. Validation looks through the dressing of a key: double quotes and
    blanks in front of a non-empty key and behind it change neither the
    cleaned key nor the answer, and neither does a double quote put
    anywhere inside a key. *)
Theorem validateApiKey_ignores_dressing (pad key pad' : jsstring) :
  key <> [] ->
  forallb quoteOrBlank pad = true ->
  forallb quoteOrBlank pad' = true ->
  cleanKey (pad ++ key ++ pad') = cleanKey key
  /\ validateApiKey (Some (pad ++ key ++ pad')) = validateApiKey (Some key)
  /\ (forall a b, a ++ b = key ->
        validateApiKey (Some (a ++ doubleQuote :: b))
        = validateApiKey (Some key)).
Proof.
  intros Hne Hpad Hpad'.
  assert (Hclean : cleanKey (pad ++ key ++ pad') = cleanKey key).
  { rewrite !cleanKey_filter, !filter_quotes_app.
    apply trim_padded; apply filter_quotes_blank; assumption. }
  split; [exact Hclean|]. split.
  - rewrite !validateApiKey_nonempty, Hclean; [reflexivity | exact Hne |].
    destruct pad; [destruct key; [congruence | discriminate] | discriminate].
  - intros a b <-.
    rewrite !validateApiKey_nonempty;
      [| exact Hne | destruct a; discriminate].
    rewrite !cleanKey_filter, !filter_quotes_app. reflexivity.
Qed.

Lemma validateApiKey_ignores_dressing_witness :
  validateApiKey
    (Some (lit " " ++ doubleQuote :: lit "AIzaSy_0123" ++ doubleQuote :: lit " "))
  = validateApiKey (Some (lit "AIzaSy_0123")).
Proof.
  destruct (validateApiKey_ignores_dressing
              (lit " " ++ [doubleQuote]) (lit "AIzaSy_0123")
              (doubleQuote :: lit " "))
    as (_ & H & _); [discriminate | reflexivity | reflexivity |].
  exact H.
Defined.

(** X2. The build step does not mask a missing key: the client code sees
    a string in every case, its validation answers as it would on the
    build variable itself, and the missing-key answer is given exactly when
    that variable was unset or empty. *)
Theorem validateApiKey_after_build (buildEnv : option jsstring) :
  is_Some (definedApiKey buildEnv)
  /\ validateApiKey (definedApiKey buildEnv) = validateApiKey buildEnv
  /\ (error (validateApiKey (definedApiKey buildEnv)) = Some missingKeyMessage
      <-> buildEnv = None \/ buildEnv = Some []).
Proof.
  destruct buildEnv as [[|c key]|]; simpl definedApiKey.
  - split; [eauto|]. split; [reflexivity|]. split; auto.
  - split; [eauto|]. split; [reflexivity|].
    rewrite validateApiKey_nonempty by discriminate.
    split; [|intros [H|H]; discriminate H].
    destruct (startsWith _ _); discriminate.
  - split; [eauto|]. split; [reflexivity|]. split; auto.
Qed.

End ApiKeyExtras.

(** ** The report text, once more *)
Section CleanTextExtras.

Lemma blank_not_backtick s :
  forallb isWhiteSpace s = true ->
  forallb (fun c => negb (c =? backtick)%N) s = true.
Proof.
  intros H. apply forallb_forall. intros c Hc.
  apply (proj1 (forallb_forall _ _) H) in Hc.
  destruct (N.eqb_spec c backtick) as [-> | _]; [discriminate Hc | reflexivity].
Qed.

Lemma forallb_app_true {A} (P : A -> bool) l1 l2 :
  forallb P l1 = true -> forallb P l2 = true -> forallb P (l1 ++ l2) = true.
Proof. intros H1 H2. rewrite forallb_app, H1, H2. reflexivity. Qed.

(** A match at the very start is dropped. *)
Lemma removeAll_match a p rest :
  removeAll (a :: p) ((a :: p) ++ rest) = removeAll (a :: p) rest.
Proof.
  change ((a :: p) ++ rest) with (a :: (p ++ rest)).
  rewrite removeAll_cons.
  change (a :: p ++ rest) with ((a :: p) ++ rest).
  rewrite startsWith_app, drop_app_length. reflexivity.
Qed.

Lemma removeAll_free a p s :
  forallb (fun c => negb (c =? a)%N) s = true -> removeAll (a :: p) s = s.
Proof.
  intros H. rewrite <- (app_nil_r s) at 1.
  rewrite removeAll_keep by exact H. simp removeAll. apply app_nil_r.
Qed.

(** The closing fence, with blanks behind it, is not an opening fence. *)
Lemma closing_fence_kept post :
  forallb isWhiteSpace post = true ->
  removeAll (lit "```json") (lit "```" ++ post) = lit "```" ++ post.
Proof.
  intros H. pose proof (blank_not_backtick _ H) as Hb. unfold backtick in Hb.
  change (lit "```" ++ post) with (96 :: 96 :: 96 :: post)%N.
  change (lit "```json") with [96; 96; 96; 106; 115; 111; 110]%N.
  destruct post as [|c post].
  - vm_compute. reflexivity.
  - simpl in H, Hb. apply andb_true_iff in H as [Hc _].
    apply andb_true_iff in Hb as [Hcb Hpb]. apply negb_true_iff in Hcb.
    assert (Hj : (c =? 106)%N = false)
      by (destruct (N.eqb_spec c 106) as [-> | _];
          [discriminate Hc | reflexivity]).
    rewrite removeAll_cons. simpl startsWith. rewrite Hj. simpl.
    rewrite removeAll_cons. simpl startsWith. rewrite Hcb. simpl.
    rewrite removeAll_cons. simpl startsWith. rewrite Hcb. simpl.
    rewrite removeAll_cons. simpl startsWith. rewrite Hcb. simpl.
    rewrite removeAll_free by exact Hpb. reflexivity.
Qed.

End CleanTextExtras.

Section ReportExtras.

Context {HealthReport : Type}.
Variable JSON_parse : jsstring -> Completion JsError HealthReport.

Lemma generateHealthReport_parses_cleanText text :
  text <> [] ->
  fst (generateHealthReport JSON_parse (Fulfilled (Some text))) =
    match JSON_parse (cleanText text) with
    | Return report => Return report
    | Throw _ => Throw (newError parseFailureMessage)
    end.
Proof.
  intros Hne. destruct text as [|c text]; [congruence|].
  unfold generateHealthReport, reportAttempt.
  destruct (JSON_parse _); reflexivity.
Qed.

(** X3. A response wrapped in a [```json] fence is read as the same
    document as the bare response: with blanks around and no backtick in
    the body, both clean to the trimmed body, and the report (or the
    parse failure) is the one of the trimmed body. *)
Theorem generateHealthReport_fence_transparent (pre body post : jsstring) :
  forallb isWhiteSpace pre = true ->
  forallb isWhiteSpace post = true ->
  forallb (fun c => negb (c =? backtick)%N) body = true ->
  cleanText (pre ++ lit "```json" ++ body ++ lit "```" ++ post) = trim body
  /\ cleanText (pre ++ body ++ post) = trim body
  /\ fst (generateHealthReport JSON_parse
            (Fulfilled (Some (pre ++ lit "```json" ++ body ++ lit "```" ++ post))))
     = match JSON_parse (trim body) with
       | Return report => Return report
       | Throw _ => Throw (newError parseFailureMessage)
       end.
Proof.
  intros Hpre Hpost Hbody.
  pose proof (blank_not_backtick _ Hpre) as Hpre'.
  pose proof (blank_not_backtick _ Hpost) as Hpost'.
  assert (Hfenced :
    cleanText (pre ++ lit "```json" ++ body ++ lit "```" ++ post) = trim body).
  { unfold cleanText.
    change (lit "```json") with (backtick :: lit "``json").
    rewrite (removeAll_keep backtick _ pre) by exact Hpre'.
    rewrite removeAll_match.
    rewrite (removeAll_keep backtick _ body) by exact Hbody.
    change (backtick :: lit "``json") with (lit "```json").
    rewrite closing_fence_kept by exact Hpost.
    change (lit "```") with (backtick :: lit "``").
    rewrite (removeAll_keep backtick _ pre) by exact Hpre'.
    rewrite (removeAll_keep backtick _ body) by exact Hbody.
    rewrite removeAll_match, removeAll_free by exact Hpost'.
    apply trim_padded; assumption. }
  split; [exact Hfenced|]. split.
  - unfold cleanText.
    change (lit "```json") with (backtick :: lit "``json").
    change (lit "```") with (backtick :: lit "``").
    assert (Hall : forallb (fun c => negb (c =? backtick)%N)
                     (pre ++ body ++ post) = true)
      by (repeat apply forallb_app_true; assumption).
    rewrite (removeAll_free backtick _ (pre ++ body ++ post) Hall).
    rewrite (removeAll_free backtick _ (pre ++ body ++ post) Hall).
    apply trim_padded; assumption.
  - rewrite generateHealthReport_parses_cleanText, Hfenced; [reflexivity|].
    destruct pre; discriminate.
Qed.

(** X4. Cleaning is idempotent: a cleaned text has nothing left to
    strip. *)
Theorem cleanText_idempotent (text : jsstring) :
  cleanText (cleanText text) = cleanText text.
Proof.
  pose proof (cleanText_no_fence text) as Hfence.
  pose proof (includes_shorter _ (lit "```") (lit "json") Hfence) as Hjson.
  unfold cleanText at 1.
  change (lit "```" ++ lit "json") with (lit "```json") in Hjson.
  rewrite (removeAll_id _ _ Hjson), (removeAll_id _ _ Hfence).
  unfold cleanText. apply trim_idem.
Qed.

(** X5. How the promise of [generateHealthReport] settles, outcome by
    outcome, for a call that is fulfilled or is rejected with an error
    object (a value other than null and undefined, whose message is a
    string or missing). It is fulfilled exactly when the response has a
    non-empty text whose cleaned form [JSON.parse] accepts, with the value
    parsed, and then nothing was logged. A rejected call is rejected again
    with a new error that carries the message of the original, or the
    connection message when the original has none or an empty one, after
    one console line showing the original. An empty response and a parse
    failure give their two fixed messages. No rejection has an empty
    message. *)
Theorem generateHealthReport_settles (outcome : ApiOutcome) :
  let generationLine cause :=
    [LogStr (lit "Report Generation Error:"); LogErr cause] in
  match outcome with
  | Rejected cause =>
      exists m,
        generateHealthReport JSON_parse outcome
        = (Throw (newError m), [generationLine cause])
        /\ m <> []
        /\ (message cause = None \/ message cause = Some [] ->
            m = connectFailureMessage)
        /\ (forall m', message cause = Some m' -> m' <> [] -> m = m')
  | Fulfilled None | Fulfilled (Some []) =>
      generateHealthReport JSON_parse outcome
      = (Throw (newError emptyResponseMessage),
         [generationLine (newError emptyResponseMessage)])
      /\ emptyResponseMessage <> []
  | Fulfilled (Some text) =>
      match JSON_parse (cleanText text) with
      | Return report =>
          generateHealthReport JSON_parse outcome = (Return report, [])
      | Throw parseError =>
          generateHealthReport JSON_parse outcome
          = (Throw (newError parseFailureMessage),
             [[LogStr (lit "JSON Parse Error:"); LogErr parseError;
               LogStr (lit "Received text:"); LogStr text];
              generationLine (newError parseFailureMessage)])
          /\ parseFailureMessage <> []
      end
  end.
Proof.
  cbv zeta. unfold generateHealthReport, reportAttempt.
  destruct outcome as [cause | [[|c text]|]].
  - exists (messageOr cause connectFailureMessage).
    split; [reflexivity|].
    split; [destruct cause as [[[|c m]|]]; discriminate|].
    unfold messageOr. split.
    + intros [-> | ->]; reflexivity.
    + intros m' -> Hm'. destruct m'; [congruence | reflexivity].
  - split; [reflexivity | discriminate].
  - destruct (JSON_parse (cleanText (c :: text))) as [report | parseError].
    + reflexivity.
    + split; [reflexivity | discriminate].
  - split; [reflexivity | discriminate].
Qed.

End ReportExtras.

Lemma generateHealthReport_fence_transparent_witness :
  fst (generateHealthReport parseEmptyObject
         (Fulfilled (Some (lit " ```json {} ``` ")))) = Return tt.
Proof.
  destruct (generateHealthReport_fence_transparent parseEmptyObject
              (lit " ") (lit " {} ") (lit " ")) as (_ & _ & H);
    [reflexivity | reflexivity | reflexivity |].
  etrans; [exact H|]. vm_compute. reflexivity.
Defined.

Lemma generateHealthReport_settles_witness :
  generateHealthReport parseEmptyObject
    (Rejected (newError (lit "quota exceeded")))
  = (Throw (newError (lit "quota exceeded")),
     [[LogStr (lit "Report Generation Error:");
       LogErr (newError (lit "quota exceeded"))]])
  /\ generateHealthReport parseEmptyObject (Rejected {| message := None |})
  = (Throw (newError connectFailureMessage),
     [[LogStr (lit "Report Generation Error:");
       LogErr {| message := None |}]]).
Proof.
  split.
  - destruct (generateHealthReport_settles parseEmptyObject
                (Rejected (newError (lit "quota exceeded"))))
      as (m & Hrun & _ & _ & Hkept).
    rewrite Hrun, (Hkept (lit "quota exceeded")); [reflexivity | reflexivity |].
    discriminate.
  - destruct (generateHealthReport_settles parseEmptyObject
                (Rejected {| message := None |}))
      as (m & Hrun & _ & Hfallback & _).
    rewrite Hrun, Hfallback; [reflexivity|]. left. reflexivity.
Defined.

(** ** The narration *)
Section NarrationFacts.

Lemma byteOfCode_to_N c : Byte.to_N (byteOfCode c) = (c mod 256)%N.
Proof.
  unfold byteOfCode, toUint8.
  pose proof (Byte.to_of_N_option_map (c mod 256)) as H.
  assert (Hlt : (c mod 256 < 256)%N) by (apply N.mod_lt; discriminate).
  replace (N.leb (c mod 256) 255) with true in H
    by (symmetry; apply N.leb_le; lia).
  destruct (Byte.of_N (c mod 256)) as [b|]; [|discriminate H].
  simpl in *. congruence.
Qed.

(** The copy loop, run on an array that has just been allocated: after [k] rounds
    the first [k] bytes are those of the string, the rest still zero. *)
Lemma copy_rounds (h : heap) l (s : jsstring) k :
  h !! l = None ->
  k <= length s ->
  foldl (fun h i =>
           uint8_set {| buffer := l; byteOffset := 0; byteLength := length s |}
             i (charCodeAt s i) h)
        (<[l := ArrayBufferData (replicate (length s) x00)]> h) (seq 0 k)
  = <[l := ArrayBufferData
            (map byteOfCode (take k s) ++ replicate (length s - k) x00)]> h.
Proof.
  intros Hl. induction k as [|k IH]; intros Hk.
  - simpl. rewrite Nat.sub_0_r. reflexivity.
  - rewrite seq_S, foldl_app, IH by lia. cbn [foldl Nat.add].
    destruct (lookup_lt_is_Some_2 s k) as [c Hc]; [lia|].
    assert (Hc' : charCodeAt s k = Some c) by exact Hc.
    unfold uint8_set. cbn [buffer byteOffset byteLength Nat.add].
    replace (k <? length s) with true by (symmetry; apply Nat.ltb_lt; lia).
    rewrite lookup_insert_eq, insert_insert_eq, Hc'.
    change (toUint8 (Some c)) with (byteOfCode c).
    do 2 f_equal.
    rewrite (take_S_r _ _ _ Hc), map_app, <- app_assoc. simpl.
    rewrite insert_app_r_alt by (rewrite length_map, length_take; lia).
    rewrite length_map, length_take, Nat.min_l, Nat.sub_diag by lia.
    replace (length s - k) with (S (length s - S k)) by lia. reflexivity.
Qed.

Variable atob : jsstring -> Completion JsError jsstring.

Lemma base64ToUint8Array_Return base64String bin (h : heap) :
  atob base64String = Return bin ->
  base64ToUint8Array atob base64String h =
    (Return {| buffer := fresh (dom h); byteOffset := 0;
               byteLength := length bin |},
     <[fresh (dom h) := ArrayBufferData (map byteOfCode bin)]> h).
Proof.
  intros Hatob. unfold base64ToUint8Array, new_Uint8Array. rewrite Hatob.
  f_equal.
  assert (Hfresh : h !! fresh (dom h) = None)
    by (apply not_elem_of_dom, is_fresh).
  rewrite copy_rounds by (assumption || lia).
  rewrite take_ge, Nat.sub_diag by lia. simpl. rewrite app_nil_r.
  reflexivity.
Qed.

(** X6. When [atob] returns a string, [base64ToUint8Array] returns a view
    at offset 0 of an array buffer of its own, new in the store, showing
    one byte per code unit: the code unit modulo 256, hence the code unit
    itself for the binary strings [atob] produces. The objects already in
    the store are left as they were. *)
Theorem base64ToUint8Array_copies base64String bin (h : heap) :
  atob base64String = Return bin ->
  exists bytes h' data,
    base64ToUint8Array atob base64String h = (Return bytes, h')
    /\ byteOffset bytes = 0 /\ byteLength bytes = length bin
    /\ h !! buffer bytes = None
    /\ (forall l o, h !! l = Some o -> h' !! l = Some o)
    /\ h' !! buffer bytes = Some (ArrayBufferData data)
    /\ viewBytes h' bytes = Some data
    /\ length data = length bin
    /\ (forall i c, bin !! i = Some c ->
          exists b, data !! i = Some b /\ Byte.to_N b = (c mod 256)%N)
    /\ (Forall (fun c => (c < 256)%N) bin -> map Byte.to_N data = bin).
Proof.
  intros Hatob.
  assert (Hfresh : h !! fresh (dom h) = None)
    by (apply not_elem_of_dom, is_fresh).
  eexists _, _, (map byteOfCode bin).
  split; [apply (base64ToUint8Array_Return _ _ _ Hatob)|].
  cbn [buffer byteOffset byteLength].
  split; [reflexivity|]. split; [reflexivity|]. split; [exact Hfresh|].
  split; [intros l o Hl; rewrite lookup_insert_ne by congruence; exact Hl|].
  split; [apply lookup_insert_eq|].
  split.
  { unfold viewBytes. cbn [buffer byteOffset byteLength].
    rewrite lookup_insert_eq, length_map, Nat.leb_refl, drop_0.
    rewrite take_ge by (rewrite length_map; lia). reflexivity. }
  split; [apply length_map|]. split.
  - intros i c Hc. exists (byteOfCode c). split.
    + apply list_lookup_fmap_Some. eauto.
    + apply byteOfCode_to_N.
  - intros Hbin. rewrite map_map.
    rewrite <- (map_id bin) at 2. apply map_ext_in.
    intros c Hc. rewrite byteOfCode_to_N.
    apply N.mod_small.
    apply (proj1 (Forall_forall _ _) Hbin). apply list_elem_of_In. exact Hc.
Qed.

End NarrationFacts.

Lemma base64ToUint8Array_copies_witness :
  exists bytes h' data,
    base64ToUint8Array atobSample (lit "AACA") (heapOf []) = (Return bytes, h')
    /\ viewBytes h' bytes = Some data
    /\ map Byte.to_N data = [0; 0; 128]%N.
Proof.
  destruct (base64ToUint8Array_copies atobSample (lit "AACA")
              [0; 0; 128]%N (heapOf []) eq_refl)
    as (bytes & h' & data & Hrun & _ & _ & _ & _ & _ & Hview & _ & _ & Hbin).
  exists bytes, h', data. split; [exact Hrun|]. split; [exact Hview|].
  apply Hbin. repeat constructor.
Defined.

Section NarrationTheorems.

Variable atob : jsstring -> Completion JsError jsstring.

(** X7. Without audio there is no narration: when the chain
    candidates[0].content.parts[0].inlineData.data breaks somewhere or ends
    in the empty string, the promise is rejected with the no-audio error,
    logged once, and the store is untouched. Only the first part of the
    first candidate counts: audio in any later part or candidate is not
    looked for. *)
Theorem generateAudioNarration_no_audio
    (response : GenerateContentResponse) (h : heap) :
  (base64Audio response = None \/ base64Audio response = Some [] ->
   generateAudioNarration atob (TtsFulfilled response) h
   = (Throw (newError noAudioMessage),
      [[LogStr (lit "TTS Error:"); LogErr (newError noAudioMessage)]], h))
  /\ (forall first later others,
        response =
          {| candidates :=
               Some ({| content := Some {| parts := Some (first :: later) |} |}
                     :: others) |} ->
        base64Audio response = inlineData first ≫= data).
Proof.
  split.
  - intros Hnone. unfold generateAudioNarration, narrationAttempt.
    destruct Hnone as [-> | ->]; reflexivity.
  - intros first later others ->. reflexivity.
Qed.

(** X8. How the promise of [generateAudioNarration] can settle. It is
    fulfilled only when the response carries a non-empty payload that
    [atob] decodes; then nothing was logged and the array returned shows,
    from offset 0, one byte per code unit of the decoded string. Otherwise
    it is rejected with the very error that occurred (the rejection of the
    call, the exception of [atob], or the no-audio error), that error is
    the one console line, and the store is as before. *)
Theorem generateAudioNarration_settles (outcome : TtsOutcome) (h : heap) :
  match generateAudioNarration atob outcome h with
  | (Return bytes, out, h') =>
      out = []
      /\ exists response payload bin,
           outcome = TtsFulfilled response
           /\ base64Audio response = Some payload /\ payload <> []
           /\ atob payload = Return bin
           /\ byteOffset bytes = 0
           /\ viewBytes h' bytes = Some (map byteOfCode bin)
  | (Throw e, out, h') =>
      out = [[LogStr (lit "TTS Error:"); LogErr e]]
      /\ h' = h
      /\ (outcome = TtsRejected e
          \/ exists response,
               outcome = TtsFulfilled response
               /\ ((e = newError noAudioMessage
                    /\ (base64Audio response = None
                        \/ base64Audio response = Some []))
                   \/ exists payload,
                        base64Audio response = Some payload
                        /\ atob payload = Throw e))
  end.
Proof.
  unfold generateAudioNarration, narrationAttempt.
  destruct outcome as [e | response].
  - split; [reflexivity|]. split; [reflexivity|]. left. reflexivity.
  - destruct (base64Audio response) as [[|c payload]|] eqn:Haudio.
    + split; [reflexivity|]. split; [reflexivity|]. right.
      exists response. split; [reflexivity|]. left. auto.
    + destruct (atob (c :: payload)) as [bin | e] eqn:Hatob.
      * rewrite (base64ToUint8Array_Return _ _ _ _ Hatob).
        split; [reflexivity|].
        exists response, (c :: payload), bin.
        split; [reflexivity|]. split; [exact Haudio|].
        split; [discriminate|]. split; [exact Hatob|].
        split; [reflexivity|].
        unfold viewBytes. cbn [buffer byteOffset byteLength].
        rewrite lookup_insert_eq, length_map, Nat.leb_refl, drop_0.
        rewrite take_ge by (rewrite length_map; lia). reflexivity.
      * unfold base64ToUint8Array. rewrite Hatob.
        split; [reflexivity|]. split; [reflexivity|]. right.
        exists response. split; [reflexivity|]. right.
        exists (c :: payload). auto.
    + split; [reflexivity|]. split; [reflexivity|]. right.
      exists response. split; [reflexivity|]. left. auto.
Qed.

(** X9. From the narration to the player: the array that
    [generateAudioNarration] returns is always well placed for the decoder
    (offset 0 of its own buffer), so [createAudioBufferFromPCM] never
    throws a RangeError on it. With at least two bytes of audio, a channel
    to give and a supported rate it returns the buffer of the samples of
    those bytes; with fewer than two bytes it throws NotSupportedError. *)
Theorem narration_then_decode
    (outcome : TtsOutcome) (h h1 : heap) bytes out ctx rate :
  generateAudioNarration atob outcome h = (Return bytes, out, h1) ->
  exists data,
    viewBytes h1 bytes = Some data
    /\ byteOffset bytes mod 2 = 0
    /\ (2 <= length data ->
        1 <= maxChannels ctx ->
        supportsRate ctx (default defaultSampleRate rate) = true ->
        exists b h2,
          createAudioBufferFromPCM bytes ctx rate h1 = (Return b, h2)
          /\ bufferLength b = length data / 2
          /\ framesOf h2 b
             = Some (map (sampleOf data) (seq 0 (length data / 2)))
          /\ viewBytes h2 bytes = Some data)
    /\ (length data < 2 ->
        createAudioBufferFromPCM bytes ctx rate h1
        = (Throw NotSupportedError, h1)).
Proof.
  intros Hrun.
  pose proof (generateAudioNarration_settles outcome h) as Hsettle.
  rewrite Hrun in Hsettle.
  destruct Hsettle as (_ & response & payload & bin & _ & _ & _ & _ & Hoff & Hview).
  exists (map byteOfCode bin).
  split; [exact Hview|]. split; [rewrite Hoff; reflexivity|].
  destruct (viewBytes_Some _ _ _ Hview) as (raw & Hbuf & _ & _ & Hlen).
  pose proof (createAudioBufferFromPCM_view bytes ctx rate h1 _ Hview) as Hdec.
  split.
  - intros Hge Hc Hr.
    rewrite accepted_true in Hdec
      by (try assumption; try lia; rewrite Hoff; reflexivity).
    eexists _, _. split; [exact Hdec|]. split; [reflexivity|].
    assert (Hfresh : h1 !! fresh (dom h1) = None)
      by (apply not_elem_of_dom, is_fresh).
    split.
    + unfold framesOf. cbn [channelData]. simpl.
      rewrite lookup_insert_eq. reflexivity.
    + unfold viewBytes in *.
      rewrite lookup_insert_ne by congruence. exact Hview.
  - intros Hlt. rewrite Hdec. unfold accepted.
    replace (2 <=? byteLength bytes) with false
      by (symmetry; apply Nat.leb_gt; lia).
    rewrite Hoff, andb_false_r. reflexivity.
Qed.

End NarrationTheorems.

Lemma generateAudioNarration_no_audio_witness :
  generateAudioNarration atobSample
    (TtsFulfilled
       {| candidates :=
            Some [{| content := Some {| parts :=
                       Some [{| inlineData := None |};
                             {| inlineData :=
                                  Some {| data := Some (lit "AACA") |} |}] |} |}] |})
    (heapOf [])
  = (Throw (newError noAudioMessage),
     [[LogStr (lit "TTS Error:"); LogErr (newError noAudioMessage)]],
     heapOf []).
Proof.
  match goal with
  | |- generateAudioNarration _ (TtsFulfilled ?r) ?h = _ =>
      destruct (generateAudioNarration_no_audio atobSample r h)
        as [Hnone Hfirst];
      apply Hnone; left;
      rewrite (Hfirst _ _ _ eq_refl)
  end.
  reflexivity.
Defined.

Lemma narration_then_decode_witness :
  exists bytes out h1 b h2,
    generateAudioNarration atobSample
      (TtsFulfilled
         {| candidates :=
              Some [{| content := Some {| parts :=
                         Some [{| inlineData :=
                                    Some {| data := Some (lit "AAAAgP9/") |} |}] |} |}] |})
      (heapOf []) = (Return bytes, out, h1)
    /\ createAudioBufferFromPCM bytes baselineContext None h1 = (Return b, h2)
    /\ bufferLength b = 3.
Proof.
  eexists _, _, _.
  match goal with
  | |- exists b h2, ?run = _ /\ _ =>
      assert (Hrun : run = (Return {| buffer := fresh (dom (heapOf []));
                                      byteOffset := 0; byteLength := 6 |}, [],
                            <[fresh (dom (heapOf [])) :=
                                ArrayBufferData
                                  (map byteOfCode [0; 0; 0; 128; 255; 127]%N)]>
                              (heapOf [])))
        by reflexivity
  end.
  destruct (narration_then_decode atobSample _ _ _ _ _ baselineContext None Hrun)
    as (data & Hview & _ & Hok & _).
  assert (Hdata : data = map byteOfCode [0; 0; 0; 128; 255; 127]%N).
  { vm_compute in Hview. injection Hview as <-. vm_compute. reflexivity. }
  subst data.
  destruct Hok as (b & h2 & Hdec & Hlen & _);
    [simpl; lia | simpl; lia | reflexivity |].
  exists b, h2. split; [exact Hrun|]. split; [exact Hdec|]. exact Hlen.
Defined.

(** ** The decoder, once more *)
Section DecoderExtras.

Lemma framesOf_returned data ctx rate (h : heap) bs b h' :
  viewBytes h data = Some bs ->
  createAudioBufferFromPCM data ctx rate h = (Return b, h') ->
  framesOf h' b = Some (map (sampleOf bs) (seq 0 (length bs / 2)))
  /\ bufferLength b = length bs / 2.
Proof.
  intros Hview Hrun.
  destruct (createAudioBufferFromPCM_returned _ _ _ _ _ _ _ Hview Hrun)
    as [-> ->].
  split; [|reflexivity].
  unfold framesOf. cbn [channelData]. simpl.
  rewrite lookup_insert_eq. reflexivity.
Qed.

(** The samples of two chunks laid end to end, the first of even length. *)
Lemma samples_app (a b : list byte) :
  length a mod 2 = 0 ->
  map (sampleOf (a ++ b)) (seq 0 (length (a ++ b) / 2))
  = map (sampleOf a) (seq 0 (length a / 2))
    ++ map (sampleOf b) (seq 0 (length b / 2)).
Proof.
  intros Heven.
  pose proof (Nat.div_mod_eq (length a) 2) as Ha. rewrite Heven in Ha.
  set (k := length a / 2) in *.
  rewrite length_app.
  replace (length a + length b) with (k * 2 + length b) by lia.
  rewrite Nat.div_add_l by lia.
  rewrite seq_app, map_app. f_equal.
  - apply map_ext_in. intros i Hi%in_seq.
    unfold sampleOf, int16At. rewrite !lookup_app_l by lia. reflexivity.
  - rewrite <- (Nat.add_0_r (0 + k)), <- fmap_add_seq.
    change (Nat.add (0 + k) <$> seq 0 (length b / 2))
      with (map (Nat.add (0 + k)) (seq 0 (length b / 2))).
    rewrite map_map. apply map_ext. intros i.
    unfold sampleOf, int16At. rewrite !lookup_app_r by lia.
    replace (2 * (0 + k + i) - length a) with (2 * i) by lia.
    replace (2 * (0 + k + i) + 1 - length a) with (2 * i + 1) by lia.
    reflexivity.
Qed.

(** X10. Decoding goes chunk by chunk: when a first chunk of even length
    and a second chunk are decoded on their own and laid end to end, the
    frames of the whole are the frames of the first followed by the frames
    of the second. *)
Theorem createAudioBufferFromPCM_chunks
    d1 d2 d ctx1 ctx2 ctx r1 r2 r (h1 h2 h : heap) (a b : list byte)
    b1 b2 b3 h1' h2' h' :
  viewBytes h1 d1 = Some a ->
  viewBytes h2 d2 = Some b ->
  viewBytes h d = Some (a ++ b) ->
  length a mod 2 = 0 ->
  createAudioBufferFromPCM d1 ctx1 r1 h1 = (Return b1, h1') ->
  createAudioBufferFromPCM d2 ctx2 r2 h2 = (Return b2, h2') ->
  createAudioBufferFromPCM d ctx r h = (Return b3, h') ->
  exists xs ys,
    framesOf h1' b1 = Some xs /\ framesOf h2' b2 = Some ys
    /\ framesOf h' b3 = Some (xs ++ ys)
    /\ bufferLength b3 = bufferLength b1 + bufferLength b2.
Proof.
  intros Ha Hb Hab Heven Hrun1 Hrun2 Hrun.
  destruct (framesOf_returned _ _ _ _ _ _ _ Ha Hrun1) as [Hf1 Hl1].
  destruct (framesOf_returned _ _ _ _ _ _ _ Hb Hrun2) as [Hf2 Hl2].
  destruct (framesOf_returned _ _ _ _ _ _ _ Hab Hrun) as [Hf Hl].
  eexists _, _. split; [exact Hf1|]. split; [exact Hf2|]. split.
  - rewrite Hf, samples_app by exact Heven. reflexivity.
  - rewrite Hl, Hl1, Hl2, length_app.
    pose proof (Nat.div_mod_eq (length a) 2) as Hk. rewrite Heven in Hk.
    replace (length a + length b) with (length a / 2 * 2 + length b) by lia.
    apply Nat.div_add_l. lia.
Qed.

Lemma createAudioBufferFromPCM_chunks_witness :
  exists b1 h1' b2 h2' b3 h' xs ys,
    createAudioBufferFromPCM (wholeView [x00; x80]) baselineContext None
      (heapOf [x00; x80]) = (Return b1, h1')
    /\ createAudioBufferFromPCM (wholeView [xff; x7f; x01]) baselineContext
         None (heapOf [xff; x7f; x01]) = (Return b2, h2')
    /\ createAudioBufferFromPCM (wholeView [x00; x80; xff; x7f; x01])
         baselineContext None (heapOf [x00; x80; xff; x7f; x01])
       = (Return b3, h')
    /\ framesOf h1' b1 = Some xs /\ framesOf h2' b2 = Some ys
    /\ framesOf h' b3 = Some (xs ++ ys).
Proof.
  eexists _, _, _, _, _, _.
  assert (H1 : viewBytes (heapOf [x00; x80]) (wholeView [x00; x80])
               = Some [x00; x80]) by reflexivity.
  assert (H2 : viewBytes (heapOf [xff; x7f; x01]) (wholeView [xff; x7f; x01])
               = Some [xff; x7f; x01]) by reflexivity.
  assert (H3 : viewBytes (heapOf [x00; x80; xff; x7f; x01])
                 (wholeView [x00; x80; xff; x7f; x01])
               = Some ([x00; x80] ++ [xff; x7f; x01])) by reflexivity.
  pose proof (createAudioBufferFromPCM_view _ baselineContext None _ _ H1) as R1.
  pose proof (createAudioBufferFromPCM_view _ baselineContext None _ _ H2) as R2.
  pose proof (createAudioBufferFromPCM_view _ baselineContext None _ _ H3) as R3.
  change (accepted _ _ _) with true in R1, R2, R3. cbv iota in R1, R2, R3.
  destruct (createAudioBufferFromPCM_chunks _ _ _ _ _ _ _ _ _ _ _ _ _ _ _ _ _
              _ _ _ H1 H2 H3 eq_refl R1 R2 R3)
    as (xs & ys & Hx & Hy & Hxy & _).
  exists xs, ys.
  split; [exact R1|]. split; [exact R2|]. split; [exact R3|].
  split; [exact Hx|]. split; [exact Hy | exact Hxy].
Defined.

(** X11. The odd byte at the end changes nothing: an input of even length
    and the same input with one more byte decode to the same frames. *)
Theorem createAudioBufferFromPCM_trailing_byte
    d1 d2 ctx1 ctx2 r1 r2 (h1 h2 : heap) (bs : list byte) (x : byte)
    b1 b2 h1' h2' :
  viewBytes h1 d1 = Some bs ->
  viewBytes h2 d2 = Some (bs ++ [x]) ->
  length bs mod 2 = 0 ->
  createAudioBufferFromPCM d1 ctx1 r1 h1 = (Return b1, h1') ->
  createAudioBufferFromPCM d2 ctx2 r2 h2 = (Return b2, h2') ->
  framesOf h2' b2 = framesOf h1' b1
  /\ bufferLength b2 = bufferLength b1.
Proof.
  intros H1 H2 Heven Hrun1 Hrun2.
  destruct (framesOf_returned _ _ _ _ _ _ _ H1 Hrun1) as [Hf1 Hl1].
  destruct (framesOf_returned _ _ _ _ _ _ _ H2 Hrun2) as [Hf2 Hl2].
  pose proof (samples_app bs [x] Heven) as Happ.
  change (length [x] / 2) with 0 in Happ. cbn [seq map] in Happ.
  rewrite app_nil_r in Happ.
  split.
  - rewrite Hf1, Hf2, Happ. reflexivity.
  - rewrite Hl1, Hl2, length_app. change (length [x]) with 1.
    pose proof (Nat.div_mod_eq (length bs) 2) as Hk. rewrite Heven in Hk.
    replace (length bs + 1) with (length bs / 2 * 2 + 1) by lia.
    rewrite Nat.div_add_l by lia. change (1 / 2) with 0. lia.
Qed.

Lemma createAudioBufferFromPCM_trailing_byte_witness :
  exists b1 h1' b2 h2',
    createAudioBufferFromPCM (wholeView [x00; x80]) baselineContext None
      (heapOf [x00; x80]) = (Return b1, h1')
    /\ createAudioBufferFromPCM (wholeView [x00; x80; x7f]) baselineContext
         None (heapOf [x00; x80; x7f]) = (Return b2, h2')
    /\ framesOf h2' b2 = framesOf h1' b1.
Proof.
  eexists _, _, _, _.
  assert (H1 : viewBytes (heapOf [x00; x80]) (wholeView [x00; x80])
               = Some [x00; x80]) by reflexivity.
  assert (H2 : viewBytes (heapOf [x00; x80; x7f]) (wholeView [x00; x80; x7f])
               = Some ([x00; x80] ++ [x7f])) by reflexivity.
  pose proof (createAudioBufferFromPCM_view _ baselineContext None _ _ H1) as R1.
  pose proof (createAudioBufferFromPCM_view _ baselineContext None _ _ H2) as R2.
  change (accepted _ _ _) with true in R1, R2. cbv iota in R1, R2.
  destruct (createAudioBufferFromPCM_trailing_byte _ _ _ _ _ _ _ _ _ _ _ _ _ _
              H1 H2 eq_refl R1 R2) as [Hf _].
  split; [exact R1|]. split; [exact R2 | exact Hf].
Defined.

End DecoderExtras.

Section DecoderLossless.

Lemma byteZ_inj b b' : byteZ b = byteZ b' -> b = b'.
Proof.
  unfold byteZ. intros H%N2Z.inj.
  pose proof (Byte.of_to_N b) as Hb. rewrite H, Byte.of_to_N in Hb.
  congruence.
Qed.

Lemma int16_of_bytes_inj lo hi lo' hi' :
  int16_of_bytes lo hi = int16_of_bytes lo' hi' -> lo = lo' /\ hi = hi'.
Proof.
  rewrite !int16_of_bytes_value. intros H.
  pose proof (byteZ_range lo). pose proof (byteZ_range hi).
  pose proof (byteZ_range lo'). pose proof (byteZ_range hi').
  assert (byteZ lo = byteZ lo' /\ byteZ hi = byteZ hi') as [Hl Hh].
  { destruct (128 <=? byteZ hi)%Z eqn:E; destruct (128 <=? byteZ hi')%Z eqn:E';
      try apply Z.leb_le in E; try apply Z.leb_gt in E;
      try apply Z.leb_le in E'; try apply Z.leb_gt in E'; lia. }
  split; apply byteZ_inj; assumption.
Qed.

Lemma div32768_inj s s' : div32768 (Some s) = div32768 (Some s') -> s = s'.
Proof.
  unfold div32768, Qdiv, Qmult, Qinv, inject_Z. simpl.
  intros H. injection H as H. lia.
Qed.

(** Equal frames come from equal bytes, up to the odd byte at the end. *)
Lemma samples_inj (a b : list byte) :
  length a mod 2 = 0 -> length b mod 2 = 0 ->
  map (sampleOf a) (seq 0 (length a / 2))
  = map (sampleOf b) (seq 0 (length b / 2)) ->
  a = b.
Proof.
  intros Ha Hb Heq.
  pose proof (Nat.div_mod_eq (length a) 2) as Hka. rewrite Ha in Hka.
  pose proof (Nat.div_mod_eq (length b) 2) as Hkb. rewrite Hb in Hkb.
  pose proof (f_equal (@length number) Heq) as Hlen.
  rewrite !length_map, !length_seq in Hlen.
  assert (Hpair : forall i, i < length a / 2 ->
            a !! (2 * i) = b !! (2 * i)
            /\ a !! (2 * i + 1) = b !! (2 * i + 1)).
  { intros i Hi.
    pose proof (f_equal (fun l : list number => l !! i) Heq) as Hi'.
    cbv beta in Hi'.
    change (map (sampleOf a)) with (fmap (M := list) (sampleOf a)) in Hi'.
    change (map (sampleOf b)) with (fmap (M := list) (sampleOf b)) in Hi'.
    rewrite !list_lookup_fmap, !lookup_seq_lt in Hi' by lia.
    simpl in Hi'. injection Hi' as Hi'.
    destruct (int16At_Some a i) as (lo & hi & Hlo & Hhi & Hat); [lia|].
    destruct (int16At_Some b i) as (lo' & hi' & Hlo' & Hhi' & Hat'); [lia|].
    unfold sampleOf in Hi'. rewrite Hat, Hat' in Hi'.
    apply div32768_inj, int16_of_bytes_inj in Hi' as [-> ->].
    rewrite Hlo, Hhi, Hlo', Hhi'. auto. }
  apply list_eq. intros j.
  destruct (Nat.lt_ge_cases j (length a)) as [Hj | Hj].
  - pose proof (Nat.div_mod_eq j 2) as Hdj.
    pose proof (Nat.mod_upper_bound j 2) as Hmj.
    destruct (Hpair (j / 2)) as [H0 H1]; [lia|].
    destruct (j mod 2) as [|[|?]] eqn:Em; [| |lia].
    + replace j with (2 * (j / 2)) by lia. exact H0.
    + replace j with (2 * (j / 2) + 1) by lia. exact H1.
  - rewrite !lookup_ge_None_2 by lia. reflexivity.
Qed.

(** X12. Nothing of the audio is lost: two inputs of even length that
    decode to the same frames are the same bytes. *)
Theorem createAudioBufferFromPCM_lossless
    d1 d2 ctx1 ctx2 r1 r2 (h1 h2 : heap) (a b : list byte) b1 b2 h1' h2' :
  viewBytes h1 d1 = Some a ->
  viewBytes h2 d2 = Some b ->
  length a mod 2 = 0 ->
  length b mod 2 = 0 ->
  createAudioBufferFromPCM d1 ctx1 r1 h1 = (Return b1, h1') ->
  createAudioBufferFromPCM d2 ctx2 r2 h2 = (Return b2, h2') ->
  framesOf h1' b1 = framesOf h2' b2 ->
  a = b.
Proof.
  intros Ha Hb Hea Heb Hrun1 Hrun2 Hframes.
  destruct (framesOf_returned _ _ _ _ _ _ _ Ha Hrun1) as [Hf1 _].
  destruct (framesOf_returned _ _ _ _ _ _ _ Hb Hrun2) as [Hf2 _].
  rewrite Hf1, Hf2 in Hframes. injection Hframes as Hframes.
  apply samples_inj; assumption.
Qed.

Lemma createAudioBufferFromPCM_lossless_witness :
  exists b1 h1' b2 h2',
    createAudioBufferFromPCM (wholeView [x00; x80]) baselineContext None
      (heapOf [x00; x80]) = (Return b1, h1')
    /\ createAudioBufferFromPCM (wholeView [x00; x80]) baselineContext
         (Some 48000%Z) (heapOf [x00; x80]) = (Return b2, h2')
    /\ framesOf h1' b1 = framesOf h2' b2
    /\ [x00; x80] = [x00; x80].
Proof.
  eexists _, _, _, _.
  assert (H1 : viewBytes (heapOf [x00; x80]) (wholeView [x00; x80])
               = Some [x00; x80]) by reflexivity.
  pose proof (createAudioBufferFromPCM_view _ baselineContext None _ _ H1) as R1.
  pose proof (createAudioBufferFromPCM_view _ baselineContext (Some 48000%Z)
                _ _ H1) as R2.
  change (accepted _ _ _) with true in R1, R2. cbv iota in R1, R2.
  split; [exact R1|]. split; [exact R2|]. split; [reflexivity|].
  apply (createAudioBufferFromPCM_lossless _ _ _ _ _ _ _ _ _ _ _ _ _ _
           H1 H1 eq_refl eq_refl R1 R2).
  reflexivity.
Defined.

(** X13. What a call does to the store. When the decoder throws, the
    store is exactly as before. When it returns, the store has gained one
    object and no more: the single channel of the buffer, of as many frames
    as the buffer says, every one of them a number in [-1, 1) and none of
    them NaN. *)
Theorem createAudioBufferFromPCM_store_effect data ctx rate (h : heap) :
  match createAudioBufferFromPCM data ctx rate h with
  | (Throw e, h') => h' = h
  | (Return b, h') =>
      exists l xs,
        numberOfChannels b = 1 /\ channelData b = [l]
        /\ h !! l = None
        /\ h' = <[l := Float32Data xs]> h
        /\ dom h' = {[l]} ∪ dom h
        /\ length xs = bufferLength b
        /\ Forall (fun v => exists q, v = Num q /\ (-1 <= q)%Q /\ (q < 1)%Q) xs
  end.
Proof.
  rewrite createAudioBufferFromPCM_unfold. cbv zeta.
  destruct (h !! buffer data) as [[bytes|elems]|] eqn:Hbuf; try reflexivity.
  destruct (negb (byteOffset data mod 2 =? 0)
            || (length bytes <? byteOffset data + byteLength data / 2 * 2))
    eqn:Hfit; [reflexivity|].
  destruct ((maxChannels ctx <? 1) || (byteLength data / 2 =? 0)
            || negb (supportsRate ctx (default defaultSampleRate rate)));
    [reflexivity|].
  apply orb_false_iff in Hfit as [_ Hfit]. apply Nat.ltb_ge in Hfit.
  eexists _, _. split; [reflexivity|]. split; [reflexivity|].
  split; [apply not_elem_of_dom, is_fresh|].
  split; [reflexivity|]. split; [apply dom_insert_L|].
  split; [rewrite length_map, length_seq; reflexivity|].
  apply Forall_forall. intros v Hv%list_elem_of_In%in_map_iff.
  destruct Hv as (i & <- & Hi%in_seq).
  unfold int16At.
  destruct (lookup_lt_is_Some_2 bytes (byteOffset data + 2 * i))
    as [lo Hlo]; [lia|].
  destruct (lookup_lt_is_Some_2 bytes (byteOffset data + 2 * i + 1))
    as [hi Hhi]; [lia|].
  rewrite Hlo, Hhi. eexists. split; [reflexivity|]. apply pcmSample_range.
Qed.

End DecoderLossless.
